(** * Mean nuclear mesh from individual meshes

    A shallow embedding of [normal_mode_analysis/mean_nuc_mesh_from_data.py]:
    the rasterizer [get_binary_mask_from_mesh] with its thread pool, the
    aggregation [get_mean_mask], the z-rescaling [fix_z], the surface
    reconstruction [get_mean_mesh], the master function
    [get_mean_mesh_from_individual_meshes], the STL export
    [save_mesh_as_stl] and the visualiser [plot_nuc_mask],
    [make_nuc_video].

    Conventions.
    - A [uint8] array element is a [Z] kept in [0, 256); NumPy's wrap-around
      is written out with [mod 256].
    - A 3-D array is a nested list indexed [z][y][x], as [np.zeros((nz,ny,nx))]
      lays it out.
    - The float64 mean is an exact rational ([Qc]); rounding of the quotient
      is not modelled.
    - Python exceptions are the [Err] case of [result].
    - The two threads of the rasterizer are interleavings of atomic
      actions, one per executed statement, on the buffers the closure
      shares; a schedule names the worker that runs next.
    - Arrays that are mutated in place live in a heap and are passed by
      location.
    - The libraries the module calls (VTK's enclosed-point filter,
      scikit-image's marching cubes, the float arithmetic of [fix_z], the
      float32 cast of numpy-stl, matplotlib's drawing) are parameters of
      the sections that use them.
    - Files are maps from names to contents.  The directories written to
      are taken to be there, so that writing a file does not fail; what is
      proved of a run that returns does not depend on this.
    - The dataset is the column [CellId] with the default index: row [i]
      has the label [i]. *)

From Stdlib Require Import ZArith QArith Qround Qcanon.
From stdpp Require Import base tactics option list numbers strings pretty gmap.

Local Open Scope Z_scope.

(** ** Exceptions *)

Inductive pyerr : Type :=
| KeyError            (* df['CellId'][i] with no row i *)
| ValueError          (* negative dimension, shapes that do not broadcast *)
| IndexError          (* vert[2] on a row with fewer than three entries *)
| ZeroDivisionError   (* imsize/dz on plain Python numbers *)
| LibraryError        (* raised inside an external library *)
| BadReference        (* a location that holds no array; Python has none *)
| TypeError.          (* int(step_size) on a step size that is a tuple *)

Inductive result (A : Type) : Type :=
| Ok (a : A)
| Err (e : pyerr).
Arguments Ok {A} a.
Arguments Err {A} e.

#[global] Instance result_ret : MRet result := λ A a, Ok a.
#[global] Instance result_bind : MBind result := λ A B f m,
  match m with Ok a => f a | Err e => Err e end.
#[global] Instance result_fmap : FMap result := λ A B f m,
  match m with Ok a => Ok (f a) | Err e => Err e end.

Definition of_option {A} (e : pyerr) (o : option A) : result A :=
  match o with Some a => Ok a | None => Err e end.

(** ** Arrays *)

Definition uint8 (v : Z) : Z := v mod 256.

(** [mask[z][y][x]], dtype uint8. *)
Abbreviation ndarray3 := (list (list (list Z))).

Definition np_zeros (nz ny nx : nat) : ndarray3 :=
  replicate nz (replicate ny (replicate nx 0)).

Definition get3 {A} (m : list (list (list A))) (z y x : nat) : option A :=
  match m !! z with
  | Some pl => match pl !! y with Some row => row !! x | None => None end
  | None => None
  end.

(** [mask[z,y,x] = v] for one index triple.  NumPy raises an IndexError out
    of range, where [alter] leaves the list alone; the rasterizer writes
    only at [z < nz], [y[i] < ny], [x[i] < nx], which is in range. *)
Definition set3 (m : ndarray3) (z y x : nat) (v : Z) : ndarray3 :=
  alter (alter (<[x := v]>) y) z m.

(** A dense array of shape [(n0, n1, n2)]: every plane has [n1] rows and
    every row [n2] elements. *)
Definition has_shape {A} (m : list (list (list A))) (n0 n1 n2 : nat) : Prop :=
  length m = n0 ∧
  Forall (λ pl, length pl = n1 ∧ Forall (λ row, length row = n2) pl) m.

(** [np.shape], read off the first plane and the first row. *)
Definition shape {A} (m : list (list (list A))) : nat * nat * nat :=
  (length m, length (hd [] m), length (hd [] (hd [] m))).

Definition np_arange (n : nat) : list nat := seq 0 n.

(** [np.meshgrid(a, b)] with the default 'xy' indexing: both outputs have
    shape [(len b, len a)]; the first repeats [a] along the rows, the second
    is constant along each row. *)
Definition np_meshgrid (a b : list nat) : list (list nat) * list (list nat) :=
  (map (λ _, a) b, map (λ bi, map (λ _, bi) a) b).

Definition flatten {A} (m : list (list A)) : list A := concat m.

(** [mask[z,y,x] = vals] with index arrays [y], [x]: one write per position. *)
Definition scatter (m : ndarray3) (z : nat) (y x : list nat) (vals : list Z)
  : ndarray3 :=
  foldl (λ acc '(yk, xk, v), set3 acc z yk xk v) m (zip (zip y x) vals).

(** ** Solid rasterizer *)

Definition point : Type := Z * Z * Z.

Inductive pc : Type :=
| PSetPoint (i : nat)                    (* xypts.SetPoint(i,[x[i],y[i],z]) *)
| PUpdate                                (* plane...; encPoints.Update() *)
| PIsInside (enc : list bool) (i : nat)  (* vert_is_inside[i] = encPoints.IsInside(i) *)
| PScale                                 (* tmp = 255*vert_is_inside *)
| PStore (tmp : list Z).                 (* mask[z,y,x] = tmp *)

(** What the closure [ProcessThisPlane] shares between its calls. *)
Record shared : Type := Shared {
  mask : ndarray3;
  xypts : list point;
  vert_is_inside : list Z
}.

(** A pool of threads: each worker is idle or inside one call
    [ProcessThisPlane(mask, z)]; [pending] holds the z still to dispatch. *)
Record pool : Type := Pool {
  sh : shared;
  pending : list nat;
  workers : list (option (nat * pc))
}.

Section Rasterizer.
Context {polydata : Type}.
(** [vtkSelectEnclosedPoints] with tolerance 1e-6 against the surface. *)
Variable IsInside : polydata → point → bool.

Section Plane.
Variables (surface : polydata) (x y : list nat) (n_verts : nat).

(** The statements of [ProcessThisPlane(mask, z)], each on the shared
    buffers. *)

(** [xypts.SetPoint(i,[x[i],y[i],z])] *)
Definition set_point (z : nat) (s : shared) (i : nat) : shared :=
  Shared (mask s)
    (<[i := (Z.of_nat (x !!! i), Z.of_nat (y !!! i), Z.of_nat z)]> (xypts s))
    (vert_is_inside s).

(** [plane.SetPoints(xypts); ...; encPoints.Update()]: the filter
    classifies the points that [xypts] holds at this moment. *)
Definition enclosed (s : shared) : list bool :=
  IsInside surface <$> xypts s.

(** [vert_is_inside[i] = encPoints.IsInside(i)] *)
Definition set_inside (enc : list bool) (s : shared) (i : nat) : shared :=
  Shared (mask s) (xypts s) (<[i := Z.b2z (enc !!! i)]> (vert_is_inside s)).

(** [255*vert_is_inside], a fresh uint8 array *)
Definition scaled (s : shared) : list Z :=
  (λ v, uint8 (255 * v)) <$> vert_is_inside s.

(** [mask[z,y,x] = tmp] *)
Definition store (z : nat) (tmp : list Z) (s : shared) : shared :=
  Shared (scatter (mask s) z y x tmp) (xypts s) (vert_is_inside s).

(** One call [ProcessThisPlane(mask, z)] that no other thread
    interrupts. *)
Definition ProcessThisPlane (z : nat) (s : shared) : shared :=
  let s := foldl (set_point z) s (np_arange n_verts) in
  let enc := enclosed s in
  let s := foldl (set_inside enc) s (np_arange n_verts) in
  store z (scaled s) s.

(** [for i in range(n_verts)]: the next iteration, or the statement
    after the loop. *)
Definition for_range (i : nat) (body : nat → pc) (after : pc) : pc :=
  if (i <? n_verts)%nat then body i else after.

Definition entry : pc := for_range 0 PSetPoint PUpdate.

(** One atomic action of a call; [None] when the call returns. *)
Definition act (z : nat) (c : pc) (s : shared) : shared * option pc :=
  match c with
  | PSetPoint i => (set_point z s i, Some (for_range (S i) PSetPoint PUpdate))
  | PUpdate => (s, Some (for_range 0 (PIsInside (enclosed s)) PScale))
  | PIsInside enc i =>
      (set_inside enc s i, Some (for_range (S i) (PIsInside enc) PScale))
  | PScale => (s, Some (PStore (scaled s)))
  | PStore tmp => (store z tmp s, None)
  end.

(** Worker [w] runs for one step: a busy worker does its next action,
    an idle one takes the next pending z. *)
Definition step_worker (p : pool) (w : nat) : pool :=
  match workers p !! w with
  | Some (Some (z, c)) =>
      let '(s', c') := act z c (sh p) in
      Pool s' (pending p) (<[w := (λ c, (z, c)) <$> c']> (workers p))
  | Some None =>
      match pending p with
      | z :: rest => Pool (sh p) rest (<[w := Some (z, entry)]> (workers p))
      | [] => p
      end
  | None => p
  end.

(** The rest of a call from [c] on, run without interruption. *)
Definition finish_call (z : nat) (c : pc) (s : shared) : shared :=
  let from_scale s := store z (scaled s) s in
  let from_inside enc range s := from_scale (foldl (set_inside enc) s range) in
  let from_update s := from_inside (enclosed s) (np_arange n_verts) s in
  match c with
  | PSetPoint i =>
      from_update (foldl (set_point z) s (i :: seq (S i) (n_verts - S i)))
  | PUpdate => from_update s
  | PIsInside enc i => from_inside enc (i :: seq (S i) (n_verts - S i)) s
  | PScale => from_scale s
  | PStore tmp => store z tmp s
  end.

(** The pool runs on without thread switches: the calls under way
    finish one after the other, then the pending planes are processed
    in order. *)
Definition drain (p : pool) : shared :=
  let s := foldl (λ s o, match o with
                         | Some (z, c) => finish_call z c s
                         | None => s
                         end) (sh p) (workers p) in
  foldl (λ s z, ProcessThisPlane z s) s (pending p).

(** [Parallel(n_jobs, backend="threading")(delayed(ProcessThisPlane)(mask, z)
    for z in range(nz))]: the threads interleave as [sched] says (the
    worker that runs next, one entry per atomic action); when [sched] is
    used up the pool runs on without further switches until every call
    has returned. *)
Definition Parallel (n_jobs : nat) (sched : list nat) (s : shared) (nz : nat)
  : shared :=
  drain (foldl step_worker (Pool s (np_arange nz) (replicate n_jobs None)) sched).
End Plane.

Definition imsize_t : Type := Z * Z * Z.

(** The body of [get_binary_mask_from_mesh(polydata, imsize)], [save_flag]
    left at its default [False], with the width of the pool as a
    parameter. *)
Definition rasterize_with_pool (n_jobs : nat) (sched : list nat)
    (surface : polydata) (imsize : imsize_t) : result ndarray3 :=
  let '(nx, ny, nz) := imsize in
  if bool_decide (nx < 0 ∨ ny < 0 ∨ nz < 0) then Err ValueError else
  let '(nx, ny, nz) := (Z.to_nat nx, Z.to_nat ny, Z.to_nat nz) in
  let mask0 := np_zeros nz ny nx in
  let '(yy, xx) := np_meshgrid (np_arange ny) (np_arange nx) in
  let x := flatten xx in
  let y := flatten yy in
  let n_verts := length y in
  let inside0 := replicate n_verts 0 in
  let xypts0 :=
    foldl (λ pts i, <[i := (Z.of_nat (x !!! i), Z.of_nat (y !!! i), 0)]> pts)
          (replicate n_verts (0, 0, 0)) (np_arange n_verts) in
  Ok (mask (Parallel surface x y n_verts n_jobs sched
              (Shared mask0 xypts0 inside0) nz)).

(** The source runs the planes with [n_jobs=2]. *)
Definition get_binary_mask_from_mesh : list nat → polydata → imsize_t →
    result ndarray3 :=
  rasterize_with_pool 2.
End Rasterizer.


(** ** Volume aggregator *)

(** NumPy broadcasting along one axis: equal lengths pair up, a length-one
    axis is stretched, anything else is a [ValueError].  (An axis of length
    0 below the first loses its shape in a nested list; every array built
    here has positive axes or is empty at the top.) *)
Definition bcast {A B C} (f : A → B → result C) (a : list A) (b : list B)
  : result (list C) :=
  if decide (length a = length b) then mapM (λ ab, f ab.1 ab.2) (zip a b)
  else match a, b with
       | [a0], _ => mapM (f a0) b
       | _, [b0] => mapM (λ ai, f ai b0) a
       | _, _ => Err ValueError
       end.

(** [np.add] on two uint8 arrays: the result is uint8 again. *)
Definition np_add (a b : ndarray3) : result ndarray3 :=
  bcast (bcast (bcast (λ u v, Ok (uint8 (u + v))))) a b.

Abbreviation mean_volume := (list (list (list Qc))).

(** [np.divide(sum_mask, n)]: true division, a float64 array. *)
Definition np_divide (a : ndarray3) (n : Z) : mean_volume :=
  fmap (M:=list) (fmap (M:=list) (fmap (M:=list)
    (λ v, (Qc_of_Z v / Qc_of_Z n)%Qc))) a.

(** The files written with [np.save], by name.  The directory a file is
    written to is taken to be there: saving does not fail. *)
Abbreviation files := (gmap string mean_volume).

Section Aggregator.
Context {polydata : Type}.
Variable IsInside : polydata → point → bool.
(** [vtkPolyDataReader]: the surface stored under a file name. *)
Variable reader : string → polydata.

(** [df] is the column [df['CellId']], one row per mesh. *)
Definition get_mesh_polydata (df : list string) (i : nat) : result polydata :=
  cell ← of_option KeyError (df !! i);
  Ok (reader ("nucleus_mesh_data/mesh_vtk_files/" +:+ cell +:+ ".vtk")).

(** The body of [for i in range(df.shape[0])]; [scheds k] is how the
    threads interleave in the k-th call of the rasterizer. *)
Fixpoint get_mean_mask_loop (scheds : nat → list nat) (df : list string)
    (imsize : imsize_t) (range : list nat) (sum_mask : ndarray3)
  : result ndarray3 :=
  match range with
  | [] => Ok sum_mask
  | i :: range' =>
      polydata ← get_mesh_polydata df i;
      m ← get_binary_mask_from_mesh IsInside (scheds (S i)) polydata imsize;
      sum_mask ← np_add sum_mask m;
      get_mean_mask_loop scheds df imsize range' sum_mask
  end.

Definition get_mean_mask (scheds : nat → list nat) (fs : files)
    (df : list string) (imsize : imsize_t) : result (files * mean_volume) :=
  polydata ← get_mesh_polydata df 0;
  sum_mask ← get_binary_mask_from_mesh IsInside (scheds 0%nat) polydata imsize;
  sum_mask ← get_mean_mask_loop scheds df imsize (np_arange (length df)) sum_mask;
  let mean_mask := np_divide sum_mask (Z.of_nat (length df)) in
  Ok (<["nucleus_mesh_data/mean_nuc_mask.npy" := mean_mask]> fs, mean_mask).
End Aggregator.

(** ** Float arithmetic of the reconstruction *)

Class FloatOps (F : Type) : Type := {
  (** [imsize/dz] on the arguments as the caller passes them *)
  py_truediv : F → F → result F;
  (** [np.round] *)
  np_round : F → F;
  (** [imsize/nz] with [nz] a NumPy float: never raises *)
  np_truediv : F → F → F;
  (** [vert[2] *= dz] *)
  np_imul : F → F → F
}.

(** Round half to even, as [np.round] does. *)
Definition Qc_round (q : Qc) : Qc :=
  let f := Qfloor q in
  let r := (q - Qc_of_Z f)%Qc in
  if decide (r < Q2Qc (1 # 2))%Qc then Qc_of_Z f
  else if decide (Q2Qc (1 # 2) < r)%Qc then Qc_of_Z (f + 1)
  else if Z.even f then Qc_of_Z f else Qc_of_Z (f + 1).

(** Exact rational arithmetic, for finite results: [x / 0] is 0 here where
    NumPy gives inf or nan. *)
#[global] Instance Qc_ops : FloatOps Qc := {
  py_truediv a b := if decide (b = 0%Qc) then Err ZeroDivisionError else Ok (a / b)%Qc;
  np_round := Qc_round;
  np_truediv a b := (a / b)%Qc;
  np_imul a b := (a * b)%Qc
}.

(** ** Surface reconstructor *)

(** What Python passes as [step_size]: the default [1], or whatever the
    caller hands over. *)
Inductive pyarg : Type :=
| PyInt (n : Z)
| PyTuple (t : imsize_t).

Abbreviation loc := positive.

Section Reconstructor.
Context {F : Type} `{FloatOps F}.

(** Vertices: an N x 3 array, one row per vertex. *)
Abbreviation vertices := (list (list F)).
Abbreviation faces := (list (list nat)).
Abbreviation mc_output := (vertices * faces * list (list F) * list F)%type.

(** Arrays live in a heap and are passed by reference. *)
Abbreviation heap := (gmap loc vertices).

(** [for vert in verts: vert[2] *= dz], rows [i], [i+1], ... *)
Fixpoint fix_z_loop (n i : nat) (σ : heap) (verts : loc) (dz : F)
  : result heap :=
  match n with
  | O => Ok σ
  | S n' =>
      arr ← of_option BadReference (σ !! verts);
      vert ← of_option IndexError (arr !! i);
      z ← of_option IndexError (vert !! 2%nat);
      fix_z_loop n' (S i)
        (<[verts := <[i := <[2%nat := np_imul z dz]> vert]> arr]> σ) verts dz
  end.

Definition fix_z (σ : heap) (verts : loc) (dz imsize : F)
  : result (heap * loc) :=
  q ← py_truediv imsize dz;
  let nz := np_round q in
  let dz := np_truediv imsize nz in
  arr ← of_option BadReference (σ !! verts);
  σ' ← fix_z_loop (length arr) 0 σ verts dz;
  Ok (σ', verts).

(** [skimage.measure.marching_cubes_lewiner(mask, step_size=ss)] *)
Variable marching_cubes_lewiner : mean_volume → pyarg → result mc_output.

Definition get_mean_mesh (mask : mean_volume) (ss : pyarg)
  : result (vertices * faces) :=
  '(verts, faces, normals, values) ← marching_cubes_lewiner mask ss;
  Ok (verts, faces).

Context {polydata : Type}.
Variable IsInside : polydata → point → bool.
Variable reader : string → polydata.

Definition get_mean_mesh_from_individual_meshes (scheds : nat → list nat)
    (fs : files) (df : list string) (imsize : imsize_t)
  : result (files * (vertices * faces * mean_volume)) :=
  '(fs, mask) ← get_mean_mask IsInside reader scheds fs df imsize;
  '(verts, faces) ← get_mean_mesh mask (PyTuple imsize);
  Ok (fs, (verts, faces, mask)).
End Reconstructor.

(** ** A concrete surface for examples *)

(** An axis-aligned box as a closed surface, its two corners given in
    half units so that no grid point lies on a face: the enclosed points
    are those strictly between the corners. *)
Definition cuboid : Type := point * point.

Definition cuboid_inside (b : cuboid) (p : point) : bool :=
  let '((x0, y0, z0), (x1, y1, z1)) := b in
  let '(px, py, pz) := p in
  bool_decide (x0 < 2 * px < x1 ∧ y0 < 2 * py < y1 ∧ z0 < 2 * pz < z1).

(** The cube of side 1 around the origin: of the grid points it encloses
    (0, 0, 0) only. *)
Definition unit_cuboid : cuboid := ((-1, -1, -1), (1, 1, 1)).

(** The same cube around (-1, -1, -1): it encloses no point of a volume. *)
Definition far_cuboid : cuboid := ((-3, -3, -3), (-1, -1, -1)).

(** A reader with one mesh file around the origin; every other name gives
    the far cube. *)
Definition cuboid_reader (name : string) : cuboid :=
  if decide (name = "nucleus_mesh_data/mesh_vtk_files/a.vtk")
  then unit_cuboid else far_cuboid.

(** * Vocabulary of the statements *)

Definition Forall3 {A} (P : A → Prop) (m : list (list (list A))) : Prop :=
  Forall (Forall (Forall P)) m.

(** An inside/outside marker as the rasterizer writes it. *)
Definition marker (v : Z) : Prop := v = 0 ∨ v = 255.

Definition add8 (u v : Z) : Z := uint8 (u + v).

(** ** What the thread pool preserves *)

Section PoolInvariantDefs.
Variables (n0 n1 n2 : nat).

Definition shared_ok (s : shared) : Prop :=
  has_shape (mask s) n0 n1 n2 ∧ Forall3 marker (mask s) ∧
  Forall (λ v, v = 0 ∨ v = 1) (vert_is_inside s).

Definition pc_ok (c : pc) : Prop :=
  match c with PStore tmp => Forall marker tmp | _ => True end.

Definition worker_ok (o : option (nat * pc)) : Prop :=
  match o with Some (_, c) => pc_ok c | None => True end.

Definition pool_ok (p : pool) : Prop :=
  shared_ok (sh p) ∧ Forall worker_ok (workers p).
End PoolInvariantDefs.

(** ** The volumes of one aggregation run *)

Section AggregatorDefs.
Context {polydata : Type}.
Variable IsInside : polydata → point → bool.
Variable reader : string → polydata.
Variable scheds : nat → list nat.
Variable df : list string.
Variables nx ny nz : Z.

(** The volume of entry [i] as the loop of [get_mean_mask] rasterizes it. *)
Definition entry_volume (i : nat) : result ndarray3 :=
  polydata ← get_mesh_polydata reader df i;
  get_binary_mask_from_mesh IsInside (scheds (S i)) polydata (nx, ny, nz).

(** The volume [sum_mask] starts from, before the loop. *)
Definition first_volume : result ndarray3 :=
  polydata ← get_mesh_polydata reader df 0;
  get_binary_mask_from_mesh IsInside (scheds 0%nat) polydata (nx, ny, nz).

(** The integer sum of the volumes at one voxel, without wrap-around. *)
Definition voxel_sum (vols : list ndarray3) (z y x : nat) : Z :=
  foldr (λ v acc, default 0 (get3 v z y x) + acc) 0 vols.

Definition volume_ok (v : ndarray3) : Prop :=
  has_shape v (Z.to_nat nz) (Z.to_nat ny) (Z.to_nat nx) ∧ Forall3 marker v.
End AggregatorDefs.

(** ** Rescaled vertices *)

Section FixZDefs.
Context {F : Type} `{FloatOps F}.

(** One vertex with its coordinate of index 2 multiplied by [dz]. *)
Definition scale_z (dz : F) (vert : list F) : list F :=
  alter (λ z, np_imul z dz) 2%nat vert.

(** The corrected spacing [dz' = imsize / nz], [nz = round(q)], for the
    quotient [q = imsize / dz]. *)
Definition corrected_dz (imsize q : F) : F :=
  np_truediv imsize (np_round q).
End FixZDefs.

(** ** The occupancy volume of a surface *)

(** The marker of one grid point. *)
Definition inside_marker {polydata : Type} (IsInside : polydata → point → bool)
    (surface : polydata) (p : point) : Z :=
  if IsInside surface p then 255 else 0.

(** The volume of the specification: in every z-plane the inside points
    carry the inside marker and all others 0. *)
Definition occupancy {polydata : Type} (IsInside : polydata → point → bool)
    (surface : polydata) (nx ny nz : nat) : ndarray3 :=
  (λ z, (λ y, (λ x, inside_marker IsInside surface
                      (Z.of_nat x, Z.of_nat y, Z.of_nat z))
                <$> seq 0 nx) <$> seq 0 ny) <$> seq 0 nz.

Section GridDefs.
Context {polydata : Type}.
Variable IsInside : polydata → point → bool.
Variable surface : polydata.
Variables nx ny : nat.

(** [x] and [y] as [get_binary_mask_from_mesh] builds them. *)
Definition grid_x : list nat := flatten (np_meshgrid (np_arange ny) (np_arange nx)).2.
Definition grid_y : list nat := flatten (np_meshgrid (np_arange ny) (np_arange nx)).1.

(** The query point of index [i] in plane [z]. *)
Definition grid_point (z i : nat) : point :=
  (Z.of_nat (grid_x !!! i), Z.of_nat (grid_y !!! i), Z.of_nat z).

(** One z-plane of [occupancy]. *)
Definition occupancy_plane (z : nat) : list (list Z) :=
  (λ y, (λ x, inside_marker IsInside surface (Z.of_nat x, Z.of_nat y, Z.of_nat z))
          <$> seq 0 nx) <$> seq 0 ny.
End GridDefs.

(** ** Values for examples *)

Definition sample_verts : list (list Qc) :=
  [Qc_of_Z <$> [1; 2; 3]; Qc_of_Z <$> [4; 5; 7]].
Definition other_verts : list (list Qc) := [Qc_of_Z <$> [1; 2; 3]].

(** A marching-cubes result for examples: one triangle that cuts the
    corner at the origin. *)
Definition corner_triangle : list (list Qc) :=
  [[Q2Qc (1 # 2); Qc_of_Z 0; Qc_of_Z 0];
   [Qc_of_Z 0; Q2Qc (1 # 2); Qc_of_Z 0];
   [Qc_of_Z 0; Qc_of_Z 0; Q2Qc (1 # 2)]].

(** A marching cubes for examples.  As scikit-image's, it converts the
    step size with [int(step_size)], which is a TypeError on a tuple. *)
Definition corner_cubes (mask : mean_volume) (ss : pyarg)
  : result (list (list Qc) * list (list nat) * list (list Qc) * list Qc) :=
  match ss with
  | PyInt _ => Ok (corner_triangle, [[0; 1; 2]%nat], [], [])
  | PyTuple _ => Err TypeError
  end.

(** ** Rows that enclose a grid point *)

(** The file [get_mesh_polydata] reads for a row. *)
Definition mesh_file (cell : string) : string :=
  "nucleus_mesh_data/mesh_vtk_files/" +:+ cell +:+ ".vtk".

Section EnclosingDefs.
Context {polydata : Type}.
Variable IsInside : polydata → point → bool.
Variable reader : string → polydata.

Definition encloses (p : point) (cell : string) : bool :=
  IsInside (reader (mesh_file cell)) p.

(** How many rows of the dataset have a mesh that encloses [p]. *)
Definition enclosing_rows (df : list string) (p : point) : Z :=
  Z.of_nat (length (filter (λ cell, encloses p cell = true) df)).
End EnclosingDefs.

(** ** STL export *)

(** [enumerate(l)] *)
Definition enumerate {A} (l : list A) : list (nat * A) :=
  zip (np_arange (length l)) l.

Section StlExport.
Context {F : Type}.
(** The float [0.0], and the cast to float32 that a write into the
    [vectors] field of a [mesh.Mesh] makes. *)
Variable zero : F.
Variable float32 : F → F.

(** [mesh.Mesh(np.zeros(n, dtype=mesh.Mesh.dtype)).vectors]: [n] triangles
    of three corners of three coordinates, [vectors[i][j][k]]. *)
Definition zero_vectors (n : nat) : list (list (list F)) :=
  replicate n (replicate 3 (replicate 3 zero)).

(** What [corner[...] = row] stores in a corner of three coordinates: a
    row of three is cast element by element, a row of one is stretched,
    any other length does not broadcast. *)
Definition assign_row (row : list F) : result (list F) :=
  match row with
  | [a] => Ok (replicate 3 (float32 a))
  | [a; b; c] => Ok [float32 a; float32 b; float32 c]
  | _ => Err ValueError
  end.

(** [nuc_mesh.vectors[i][j] = verts[f[j],:]] for the [j] of [js]; the
    indices of a face are natural numbers, as marching cubes gives them. *)
Fixpoint set_corners (js : list nat) (vectors : list (list (list F)))
    (verts : list (list F)) (i : nat) (f : list nat)
  : result (list (list (list F))) :=
  match js with
  | [] => Ok vectors
  | j :: js' =>
      fj ← of_option IndexError (f !! j);
      row ← of_option IndexError (verts !! fj);
      corner ← assign_row row;
      set_corners js' (alter (<[j := corner]>) i vectors) verts i f
  end.

(** [for i, f in ...: for j in range(3): ...] *)
Fixpoint set_triangles (ifs : list (nat * list nat))
    (vectors : list (list (list F))) (verts : list (list F))
  : result (list (list (list F))) :=
  match ifs with
  | [] => Ok vectors
  | (i, f) :: ifs' =>
      vectors ← set_corners (np_arange 3) vectors verts i f;
      set_triangles ifs' vectors verts
  end.

(** [save_mesh_as_stl(verts, faces, fname)]; [fs] holds the meshes written
    with [Mesh.save], by file name, each as its triangles. *)
Definition save_mesh_as_stl (fs : gmap string (list (list (list F))))
    (verts : list (list F)) (faces : list (list nat)) (fname : string)
  : result (gmap string (list (list (list F)))) :=
  let nuc_mesh := zero_vectors (length faces) in
  nuc_mesh ← set_triangles (enumerate faces) nuc_mesh verts;
  Ok (<[fname +:+ ".stl" := nuc_mesh]> fs).
End StlExport.

(** A face whose first three indices exist and point into an array of
    [n_verts] vertices. *)
Definition face_in_range (n_verts : nat) (f : list nat) : Prop :=
  (3 ≤ length f)%nat ∧ Forall (λ k, (k < n_verts)%nat) (take 3 f).

(** The triangle of a face: the vertices at the first three indices, cast
    to float32. *)
Definition triangle_of {F : Type} (float32 : F → F) (verts : list (list F))
    (f : list nat) : list (list F) :=
  (λ k : nat, float32 <$> (verts !!! k : list F)) <$> take 3 f.

(** ** Where the thread pool can write a marker *)

Section FootprintDefs.
Context {polydata : Type}.
Variable IsInside : polydata → point → bool.
Variables (surface : polydata) (x y : list nat) (n_verts nz : nat).

(** The surface encloses the grid point [(xk, yk, z')] of some plane
    [z' < nz]. *)
Definition column_enclosed (xk yk : nat) : Prop :=
  ∃ z', (z' < nz)%nat ∧
        IsInside surface (Z.of_nat xk, Z.of_nat yk, Z.of_nat z') = true.

(** There are [n_verts] query points, that of index [i] is the grid point
    of index [i] in some plane; an entry of [vert_is_inside] or of the
    volume is non-zero only in an enclosed column. *)
Definition shared_fp (s : shared) : Prop :=
  length (xypts s) = n_verts ∧
  (∀ i pt, xypts s !! i = Some pt →
     ∃ z', (z' < nz)%nat ∧
           pt = (Z.of_nat (x !!! i), Z.of_nat (y !!! i), Z.of_nat z')) ∧
  (∀ i v, vert_is_inside s !! i = Some v → v ≠ 0 →
     column_enclosed (x !!! i) (y !!! i)) ∧
  (∀ z yk xk v, get3 (mask s) z yk xk = Some v → v ≠ 0 →
     column_enclosed xk yk).

(** An answer of the filter: one per query point, positive only in an
    enclosed column. *)
Definition enc_fp (enc : list bool) : Prop :=
  length enc = n_verts ∧
  ∀ k, enc !! k = Some true → column_enclosed (x !!! k) (y !!! k).

Definition pc_fp (c : pc) : Prop :=
  match c with
  | PIsInside enc i => (i < n_verts)%nat ∧ enc_fp enc
  | PStore tmp =>
      ∀ i v, tmp !! i = Some v → v ≠ 0 → column_enclosed (x !!! i) (y !!! i)
  | _ => True
  end.

Definition worker_fp (o : option (nat * pc)) : Prop :=
  match o with Some (z, c) => (z < nz)%nat ∧ pc_fp c | None => True end.

Definition pool_fp (p : pool) : Prop :=
  shared_fp (sh p) ∧ Forall (λ z, (z < nz)%nat) (pending p) ∧
  Forall worker_fp (workers p).
End FootprintDefs.

(** ** Visualiser *)

(** The visualiser reads module globals and files as well: besides the
    exceptions above, a name that is not defined and a file that is not
    there. *)
Inductive pyexc : Type :=
| Exc (e : pyerr)
| NameError (name : string)
| FileNotFoundError (name : string).

Inductive outcome (A : Type) : Type :=
| Returns (a : A)
| Raises (e : pyexc).
Arguments Returns {A} a.
Arguments Raises {A} e.

#[global] Instance outcome_ret : MRet outcome := λ A a, Returns a.
#[global] Instance outcome_bind : MBind outcome := λ A B f m,
  match m with Returns a => f a | Raises e => Raises e end.

Definition lift {A} (r : result A) : outcome A :=
  match r with Ok a => Returns a | Err e => Raises (Exc e) end.

(** What a file written by the visualiser holds. *)
Inductive file_content (image : Type) : Type :=
| Png (img : image)             (* plt.savefig(title, format='png') *)
| Gif (frames : list image).    (* imageio.mimsave(name, images) *)
Arguments Png {image} img.
Arguments Gif {image} frames.

(** [np.linspace(start, stop, num)] for [num > 1], in exact arithmetic. *)
Definition np_linspace (start stop : Qc) (num : nat) : list Qc :=
  (λ k, (start + Qc_of_Z (Z.of_nat k) *
                 ((stop - start) / Qc_of_Z (Z.of_nat num - 1)))%Qc)
    <$> np_arange num.

(** [int(q)]: truncation towards zero. *)
Definition py_int (q : Qc) : Z :=
  if decide (0 ≤ q)%Qc then Qfloor q else Qceiling q.

Section Visualiser.
Context {F : Type} `{FloatOps F} {image : Type}.
(** [measure.marching_cubes_lewiner] *)
Variable marching_cubes_lewiner :
  mean_volume → pyarg → result (list (list F) * list (list nat) * list (list F) * list F).
(** The figure drawn by [plt.figure()], [plt.axes(projection="3d")],
    [ax.view_init(azim=az)] when [az] is given,
    [ax.plot_trisurf(x, y, faces, z, lw=0, cmap=plt.cm.Paired)] and
    [plt.tight_layout()]. *)
Variable plot_trisurf :
  option Qc → list F → list F → list (list nat) → list F → result image.

(** [x, y, z = verts.T]: the three columns of an N x 3 array. *)
Definition unpack_columns (verts : list (list F))
  : result (list F * list F * list F) :=
  rows ← mapM (λ vert, match vert with
                       | [a; b; c] => Ok (a, b, c)
                       | _ => Err ValueError
                       end) verts;
  Ok (rows.*1.*1, rows.*1.*2, rows.*2).

(** A global of the module, by name; [dz] and [imsize] hold numbers when
    they are defined. *)
Definition global (globals : gmap string F) (name : string) : outcome F :=
  match globals !! name with
  | Some v => Returns v
  | None => Raises (NameError name)
  end.

(** [plot_nuc_mask] up to [plt.tight_layout()]: the figure.  The vertices
    that marching cubes returns are a fresh array. *)
Definition nuc_figure (globals : gmap string F) (mask : mean_volume)
    (az : option Qc) : outcome image :=
  '(verts, faces, normals, values) ← lift (marching_cubes_lewiner mask (PyInt 1));
  dz ← global globals "dz";
  imsize ← global globals "imsize";
  '(σ, verts) ← lift (fix_z {[ 1%positive := verts ]} 1%positive dz imsize);
  verts ← lift (of_option BadReference (σ !! verts));
  '(x, y, z) ← lift (unpack_columns verts);
  lift (plot_trisurf az x y faces z).

Definition plot_nuc_mask (globals : gmap string F)
    (fs : gmap string (file_content image)) (mask : mean_volume)
    (title : option string) (az : option Qc)
  : outcome (gmap string (file_content image)) :=
  fig ← nuc_figure globals mask az;
  match title with
  | Some title => Returns (<[title := Png fig]> fs)
  | None => Returns fs
  end.

(** [imageio.imread(name)]: of an animation, the first frame. *)
Definition imread (fs : gmap string (file_content image)) (name : string)
  : outcome image :=
  match fs !! name with
  | Some (Png img) => Returns img
  | Some (Gif frames) => lift (of_option LibraryError (head frames))
  | None => Raises (FileNotFoundError name)
  end.

(** [os.remove(name)] *)
Definition os_remove (fs : gmap string (file_content image)) (name : string)
  : outcome (gmap string (file_content image)) :=
  match fs !! name with
  | Some _ => Returns (delete name fs)
  | None => Raises (FileNotFoundError name)
  end.

(** [for i in ...]: the loop of [make_nuc_video], which assigns to
    [filename]. *)
Fixpoint make_nuc_video_loop (azs : list Qc) (globals : gmap string F)
    (fs : gmap string (file_content image)) (mask : mean_volume)
    (filename : string) (images : list image)
  : outcome (gmap string (file_content image) * string * list image) :=
  match azs with
  | [] => Returns (fs, filename, images)
  | i :: azs' =>
      let filename := "az_" +:+ pretty (py_int i) +:+ ".png" in
      fs ← plot_nuc_mask globals fs mask (Some filename) (Some i);
      img ← imread fs filename;
      fs ← os_remove fs filename;
      make_nuc_video_loop azs' globals fs mask filename (images ++ [img])
  end.

Definition make_nuc_video (globals : gmap string F)
    (fs : gmap string (file_content image)) (mask : mean_volume)
    (filename : string) : outcome (gmap string (file_content image)) :=
  '(fs, filename, images) ←
    make_nuc_video_loop (np_linspace 0 (Qc_of_Z 360) 25) globals fs mask
      filename [];
  Returns (<[filename +:+ ".gif" := Gif images]> fs).
End Visualiser.

(** Column [j] of an array of vertices. *)
Definition column {F : Type} (j : nat) (verts : list (list F)) : list F :=
  omap (λ vert, vert !! j) verts.

(** The azimuth of frame [k] of the video, in degrees, and the name of the
    file the frame is drawn to. *)
Definition frame_azimuth (k : nat) : Qc := Qc_of_Z (15 * Z.of_nat k).
Definition frame_name (k : nat) : string :=
  "az_" +:+ pretty (15 * Z.of_nat k) +:+ ".png".

(** * Properties *)

Lemma bind_Ok {A B} (f : A → result B) (a : A) : Ok a ≫= f = f a.
Proof. reflexivity. Qed.

Lemma bind_Err {A B} (f : A → result B) (e : pyerr) : Err e ≫= f = Err e.
Proof. reflexivity. Qed.

(** [evaluate t as H] adds [H : t = v], with [v] the value of [t]. *)
Tactic Notation "evaluate" constr(t) "as" ident(H) :=
  let v := eval vm_compute in t in
  assert (t = v) as H by (vm_compute; reflexivity).

(** ** Arrays *)

Lemma has_shape_np_zeros nz ny nx : has_shape (np_zeros nz ny nx) nz ny nx.
Proof.
  split; [apply length_replicate|].
  apply Forall_replicate. split; [apply length_replicate|].
  apply Forall_replicate, length_replicate.
Qed.

Lemma Forall3_np_zeros nz ny nx : Forall3 marker (np_zeros nz ny nx).
Proof. do 3 apply Forall_replicate. by left. Qed.

Lemma set3_shape m z y x v n0 n1 n2 :
  has_shape m n0 n1 n2 → has_shape (set3 m z y x v) n0 n1 n2.
Proof.
  intros [Hlen Hall]. unfold set3. split; [by rewrite length_alter|].
  apply Forall_alter; [done|]. intros pl _ [Hpl Hrows].
  split; [by rewrite length_alter|].
  apply Forall_alter; [done|]. intros row _ Hrow. by rewrite length_insert.
Qed.

Lemma set3_Forall3 (P : Z → Prop) m z y x v :
  P v → Forall3 P m → Forall3 P (set3 m z y x v).
Proof.
  intros Hv Hall. unfold set3. apply Forall_alter; [done|]. intros pl _ Hpl.
  apply Forall_alter; [done|]. intros row _ Hrow. by apply Forall_insert.
Qed.

Lemma scatter_shape m z y x vals n0 n1 n2 :
  has_shape m n0 n1 n2 → has_shape (scatter m z y x vals) n0 n1 n2.
Proof.
  unfold scatter. generalize (zip (zip y x) vals) as l. intros l. revert m.
  induction l as [|[[yk xk] v] l IH]; intros m Hm; [done|].
  cbn. apply IH. by apply set3_shape.
Qed.

Lemma scatter_Forall3 (P : Z → Prop) m z y x vals :
  Forall P vals → Forall3 P m → Forall3 P (scatter m z y x vals).
Proof.
  unfold scatter. revert m y x.
  induction vals as [|v vals IH]; intros m y x Hvals Hm.
  - by rewrite zip_with_nil_r.
  - destruct (zip y x) as [|[yk xk] l] eqn:Hzip; [done|].
    destruct y as [|y0 y], x as [|x0 x]; try done.
    cbn in Hzip. injection Hzip as -> -> <-.
    cbn. inversion_clear Hvals as [|?? Hv Hrest].
    apply IH; [done|]. by apply set3_Forall3.
Qed.

(** ** The thread pool keeps the volume well-formed *)

Section PoolInvariant.
Context {polydata : Type}.
Variable IsInside : polydata → point → bool.
Variables (surface : polydata) (x y : list nat) (n_verts : nat).
Variables (n0 n1 n2 : nat).

Lemma for_range_ok i body after :
  (∀ j, pc_ok (body j)) → pc_ok after → pc_ok (for_range n_verts i body after).
Proof. intros Hb Ha. unfold for_range. by case_match. Qed.

Lemma set_point_ok z s i : shared_ok n0 n1 n2 s → shared_ok n0 n1 n2 (set_point x y z s i).
Proof. by intros (Hshape & Hmark & Hins). Qed.

Lemma set_inside_ok enc s i : shared_ok n0 n1 n2 s → shared_ok n0 n1 n2 (set_inside enc s i).
Proof.
  intros (Hshape & Hmark & Hins).
  split; [exact Hshape|split; [exact Hmark|]]. cbn.
  apply Forall_insert; [done|]. destruct (enc !!! i); auto.
Qed.

Lemma scaled_ok s : shared_ok n0 n1 n2 s → Forall marker (scaled s).
Proof.
  intros (_ & _ & Hins). apply Forall_fmap. eapply Forall_impl; [exact Hins|].
  intros v [-> | ->]; [by left | by right].
Qed.

Lemma store_ok z tmp s :
  shared_ok n0 n1 n2 s → Forall marker tmp → shared_ok n0 n1 n2 (store x y z tmp s).
Proof.
  intros (Hshape & Hmark & Hins) Htmp.
  split; [by apply scatter_shape|split; [by apply scatter_Forall3|done]].
Qed.

Lemma foldl_ok {A} (f : shared → A → shared) (l : list A) s :
  (∀ s a, shared_ok n0 n1 n2 s → shared_ok n0 n1 n2 (f s a)) → shared_ok n0 n1 n2 s →
  shared_ok n0 n1 n2 (foldl f s l).
Proof.
  intros Hf. revert s. induction l as [|a l IH]; intros s Hs; [done|].
  cbn. by apply IH, Hf.
Qed.

Lemma act_ok z c s :
  shared_ok n0 n1 n2 s → pc_ok c →
  shared_ok n0 n1 n2 (act IsInside surface x y n_verts z c s).1 ∧
  match (act IsInside surface x y n_verts z c s).2 with
  | Some c' => pc_ok c'
  | None => True
  end.
Proof.
  intros Hs Hc. destruct c as [i| |enc i| |tmp]; cbn.
  - split; [by apply set_point_ok|]. by apply for_range_ok.
  - split; [done|]. by apply for_range_ok.
  - split; [by apply set_inside_ok|]. by apply for_range_ok.
  - split; [done|]. by apply scaled_ok.
  - split; [|done]. by apply store_ok.
Qed.

Lemma finish_call_ok z c s :
  shared_ok n0 n1 n2 s → pc_ok c →
  shared_ok n0 n1 n2 (finish_call IsInside surface x y n_verts z c s).
Proof.
  intros Hs Hc.
  assert (∀ s, shared_ok n0 n1 n2 s → shared_ok n0 n1 n2 (store x y z (scaled s) s)) as Hscale.
  { intros s' Hs'. apply store_ok; [done|]. by apply scaled_ok. }
  assert (∀ enc range s, shared_ok n0 n1 n2 s →
            shared_ok n0 n1 n2 (store x y z (scaled (foldl (set_inside enc) s range))
                         (foldl (set_inside enc) s range))) as Hinside.
  { intros enc range s' Hs'. apply Hscale, foldl_ok; [|done].
    intros. by apply set_inside_ok. }
  destruct c as [i| |enc i| |tmp]; cbn [finish_call].
  - apply Hinside, foldl_ok; [|done]. intros. by apply set_point_ok.
  - by apply Hinside.
  - by apply Hinside.
  - by apply Hscale.
  - by apply store_ok.
Qed.

Lemma ProcessThisPlane_ok z s :
  shared_ok n0 n1 n2 s → shared_ok n0 n1 n2 (ProcessThisPlane IsInside surface x y n_verts z s).
Proof.
  intros Hs. unfold ProcessThisPlane. apply store_ok.
  - apply foldl_ok; [intros; by apply set_inside_ok|].
    apply foldl_ok; [intros; by apply set_point_ok|done].
  - apply scaled_ok.
    apply foldl_ok; [intros; by apply set_inside_ok|].
    apply foldl_ok; [intros; by apply set_point_ok|done].
Qed.

Lemma step_worker_ok p w :
  pool_ok n0 n1 n2 p → pool_ok n0 n1 n2 (step_worker IsInside surface x y n_verts p w).
Proof.
  intros [Hs Hw]. unfold step_worker.
  destruct (workers p !! w) as [[[z c]|]|] eqn:Hlook; [| |done].
  - assert (pc_ok c) as Hc.
    { exact (Forall_lookup_1 _ _ _ _ Hw Hlook). }
    pose proof (act_ok z c (sh p) Hs Hc) as [Hs' Hc'].
    destruct (act IsInside surface x y n_verts z c (sh p)) as [s' c'].
    split; [done|]. cbn. apply Forall_insert; [done|].
    by destruct c'.
  - destruct (pending p) as [|z rest]; [done|].
    split; [done|]. cbn. apply Forall_insert; [done|].
    by apply for_range_ok.
Qed.

Lemma drain_ok p :
  pool_ok n0 n1 n2 p → shared_ok n0 n1 n2 (drain IsInside surface x y n_verts p).
Proof.
  intros [Hs Hw]. unfold drain.
  apply foldl_ok; [intros; by apply ProcessThisPlane_ok|].
  revert Hs. generalize (sh p) as s. induction Hw as [|o ws Ho _ IH]; intros s Hs.
  - done.
  - cbn. apply IH. destruct o as [[z c]|]; [|done]. by apply finish_call_ok.
Qed.

Lemma Parallel_ok n_jobs sched s nz :
  shared_ok n0 n1 n2 s →
  shared_ok n0 n1 n2 (Parallel IsInside surface x y n_verts n_jobs sched s nz).
Proof.
  intros Hs. unfold Parallel. apply drain_ok.
  set (p0 := Pool s (np_arange nz) (replicate n_jobs None)).
  assert (pool_ok n0 n1 n2 p0) as Hp0.
  { split; [done|]. by apply Forall_replicate. }
  revert Hp0. generalize p0 as p. clear p0.
  induction sched as [|w sched IH]; intros p Hp; [done|].
  cbn. apply IH. by apply step_worker_ok.
Qed.
End PoolInvariant.

(** ** Uninterrupted calls and the pool of one worker *)

Section PoolRuns.
Context {polydata : Type}.
Variable IsInside : polydata → point → bool.
Variables (surface : polydata) (x y : list nat) (n_verts : nat).

Local Abbreviation Act := (act IsInside surface x y n_verts).
Local Abbreviation Finish := (finish_call IsInside surface x y n_verts).
Local Abbreviation Plane := (ProcessThisPlane IsInside surface x y n_verts).
Local Abbreviation Step := (step_worker IsInside surface x y n_verts).
Local Abbreviation Drain := (drain IsInside surface x y n_verts).
Local Abbreviation Run := (Parallel IsInside surface x y n_verts).

Lemma seq_rest i :
  (i < n_verts)%nat → seq i (n_verts - i) = i :: seq (S i) (n_verts - S i).
Proof.
  intros Hi. replace (n_verts - i)%nat with (S (n_verts - S i)) by lia. done.
Qed.

Lemma finish_call_entry z s :
  Finish z (entry n_verts) s = Plane z s.
Proof.
  unfold entry, for_range, ProcessThisPlane, np_arange.
  destruct (Nat.ltb_spec 0 n_verts) as [Hn|Hn]; cbn [finish_call].
  - rewrite <-seq_rest by lia. by rewrite Nat.sub_0_r.
  - replace n_verts with 0%nat by lia. done.
Qed.

(** Running a call to its end is doing its next action and then running
    the rest to its end. *)
Lemma finish_call_act z c s :
  Finish z c s =
  match Act z c s with
  | (s', Some c') => Finish z c' s'
  | (s', None) => s'
  end.
Proof.
  destruct c as [i| |enc i| |tmp]; cbn [act finish_call];
    unfold for_range, np_arange.
  - destruct (Nat.ltb_spec (S i) n_verts) as [Hi|Hi]; cbn [finish_call].
    + by rewrite <-(seq_rest (S i)) by lia.
    + replace (n_verts - S i)%nat with 0%nat by lia. done.
  - destruct (Nat.ltb_spec 0 n_verts) as [Hn|Hn]; cbn [finish_call].
    + rewrite <-seq_rest by lia. by rewrite Nat.sub_0_r.
    + replace n_verts with 0%nat by lia. done.
  - destruct (Nat.ltb_spec (S i) n_verts) as [Hi|Hi]; cbn [finish_call].
    + by rewrite <-(seq_rest (S i)) by lia.
    + replace (n_verts - S i)%nat with 0%nat by lia. done.
  - done.
  - done.
Qed.

Lemma step_worker_length p w :
  length (workers (Step p w)) = length (workers p).
Proof.
  unfold step_worker.
  destruct (workers p !! w) as [[[z c]|]|]; [| |done].
  - destruct (Act z c (sh p)) as [s' c']. cbn. by rewrite length_insert.
  - destruct (pending p) as [|z rest]; [done|]. cbn. by rewrite length_insert.
Qed.

(** With a single worker a step changes nothing that the rest of the run
    would not do anyway. *)
Lemma drain_step_single p w :
  length (workers p) = 1%nat → Drain (Step p w) = Drain p.
Proof.
  intros Hlen. destruct p as [s pend ws].
  destruct ws as [|o [|o' ws]]; try done.
  unfold step_worker. cbn [workers sh pending].
  destruct w as [|w]; [|done]. cbn [lookup list_lookup].
  destruct o as [[z c]|].
  - unfold drain at 2. cbn [workers sh pending foldl].
    rewrite (finish_call_act z c s).
    destruct (Act z c s) as [s' [c'|]]; done.
  - destruct pend as [|z rest]; [done|].
    unfold drain. cbn [workers sh pending foldl insert list_insert].
    by rewrite finish_call_entry.
Qed.

(** A pool of one worker processes the planes in order, whatever the
    schedule. *)
Lemma Parallel_one_worker sched s nz :
  Run 1 sched s nz = foldl (λ s z, Plane z s) s (np_arange nz).
Proof.
  unfold Parallel.
  change (foldl (λ s z, Plane z s) s (np_arange nz))
    with (Drain (Pool s (np_arange nz) (replicate 1 None))).
  assert (length (workers (Pool s (np_arange nz) (replicate 1 None))) = 1%nat)
    as Hlen by done.
  revert Hlen. generalize (Pool s (np_arange nz) (replicate 1 None)) as p.
  induction sched as [|w sched IH]; intros p Hlen; [done|].
  cbn [foldl]. rewrite IH; [by apply drain_step_single|].
  by rewrite step_worker_length.
Qed.

(** So does a pool of any width when no thread is ever switched out. *)
Lemma Parallel_unswitched n_jobs s nz :
  Run n_jobs [] s nz = foldl (λ s z, Plane z s) s (np_arange nz).
Proof.
  unfold Parallel, drain. cbn [foldl workers sh pending].
  f_equal. induction n_jobs as [|n IH]; [done|]. exact IH.
Qed.
End PoolRuns.

(** ** Rasterizer *)

Lemma has_shape_shape {A} (m : list (list (list A))) n0 n1 n2 :
  has_shape m n0 n1 n2 → (0 < n0)%nat → (0 < n1)%nat → shape m = (n0, n1, n2).
Proof.
  intros [Hlen Hall] H0 H1. unfold shape.
  destruct m as [|pl m]; cbn in *; [lia|].
  inversion_clear Hall as [|?? [Hpl Hrows] _].
  destruct pl as [|row pl]; cbn in *; [lia|].
  inversion_clear Hrows as [|?? Hrow _]. congruence.
Qed.

Section RasterizerFacts.
Context {polydata : Type}.
Variable IsInside : polydata → point → bool.

(** Under every interleaving, and for every width of the pool, the
    rasterizer returns a dense [(nz, ny, nx)] array of markers. *)
Lemma rasterize_with_pool_ok n_jobs sched surface nx ny nz :
  0 ≤ nx → 0 ≤ ny → 0 ≤ nz →
  ∃ m, rasterize_with_pool IsInside n_jobs sched surface (nx, ny, nz) = Ok m ∧
       has_shape m (Z.to_nat nz) (Z.to_nat ny) (Z.to_nat nx) ∧
       Forall3 marker m.
Proof.
  intros Hx Hy Hz. unfold rasterize_with_pool.
  rewrite bool_decide_eq_false_2 by lia. cbn zeta.
  eexists. split; [reflexivity|].
  match goal with
  | |- context [Parallel _ ?sf ?xs ?ys ?n ?j ?sc ?s0 ?k] =>
      pose proof (Parallel_ok IsInside sf xs ys n
                    (Z.to_nat nz) (Z.to_nat ny) (Z.to_nat nx) j sc s0 k) as Hok
  end.
  destruct Hok as (Hshape & Hmark & _); [|done].
  split; [apply has_shape_np_zeros|].
  split; [apply Forall3_np_zeros|]. by apply Forall_replicate; left.
Qed.

Lemma rasterize_with_pool_inv n_jobs sched surface nx ny nz m :
  rasterize_with_pool IsInside n_jobs sched surface (nx, ny, nz) = Ok m →
  0 ≤ nx ∧ 0 ≤ ny ∧ 0 ≤ nz.
Proof.
  unfold rasterize_with_pool. case_bool_decide as Hneg; [done|]. lia.
Qed.
End RasterizerFacts.

(** C7, as stated, fails: for the size (nx, ny, nz) = (1, 1, 2) the first
    axis of the returned volume has length 2 = nz, not 1 = nx. *)
Lemma get_binary_mask_from_mesh_shape_not_xyz :
  ¬ (∀ (sched : list nat) (surface : cuboid) (nx ny nz : Z),
       0 < nx → 0 < ny → 0 < nz →
       ∃ m, get_binary_mask_from_mesh cuboid_inside sched surface (nx, ny, nz) = Ok m ∧
            shape m = (Z.to_nat nx, Z.to_nat ny, Z.to_nat nz)).
Proof.
  intros Hclaim.
  destruct (Hclaim [] unit_cuboid 1 1 2) as (m & Hm & Hshape); [lia..|].
  vm_compute in Hm. injection Hm as <-. discriminate Hshape.
Qed.

(** C7 (amended): for every size (nx, ny, nz) with positive components
    the occupancy volume returned by the rasterizer is a dense 3-D array of
    shape (nz, ny, nx): its first axis has length nz, its second ny and its
    third nx. *)
Theorem get_binary_mask_from_mesh_shape {polydata : Type}
    (IsInside : polydata → point → bool) (sched : list nat)
    (surface : polydata) (nx ny nz : Z) :
  0 < nx → 0 < ny → 0 < nz →
  ∃ m, get_binary_mask_from_mesh IsInside sched surface (nx, ny, nz) = Ok m ∧
       has_shape m (Z.to_nat nz) (Z.to_nat ny) (Z.to_nat nx) ∧
       shape m = (Z.to_nat nz, Z.to_nat ny, Z.to_nat nx).
Proof.
  intros Hx Hy Hz.
  destruct (rasterize_with_pool_ok IsInside 2 sched surface nx ny nz)
    as (m & Hm & Hshape & _); [lia..|].
  exists m. split; [exact Hm|]. split; [exact Hshape|].
  apply has_shape_shape; [exact Hshape|lia..].
Qed.

Lemma get_binary_mask_from_mesh_shape_witness :
  ∃ m, get_binary_mask_from_mesh cuboid_inside [0; 1; 0; 1]%nat unit_cuboid (3, 2, 4) = Ok m ∧
       has_shape m 4 2 3 ∧ shape m = (4, 2, 3)%nat.
Proof.
  apply (get_binary_mask_from_mesh_shape cuboid_inside [0; 1; 0; 1]%nat unit_cuboid 3 2 4);
    lia.
Defined.


(** ** Element-wise addition *)

Lemma uint8_range v : 0 ≤ uint8 v < 256.
Proof. unfold uint8. apply Z.mod_pos_bound. lia. Qed.

Lemma uint8_add8_l a b c : uint8 (add8 a b + c) = uint8 (a + (b + c)).
Proof.
  unfold add8, uint8. rewrite Z.add_mod_idemp_l by lia. f_equal. lia.
Qed.

Lemma bcast_same_length {A B C} (f : A → B → result C) (g : A → B → C) a b :
  Forall2 (λ ai bi, f ai bi = Ok (g ai bi)) a b →
  bcast f a b = Ok (zip_with g a b).
Proof.
  intros Hall. unfold bcast.
  rewrite decide_True by (by eapply Forall2_length).
  induction Hall as [|ai bi a b Hf _ IH]; [done|].
  cbn. rewrite Hf. cbn. cbn in IH. by rewrite IH.
Qed.

Lemma Forall2_of_Forall {A B} (P : A → Prop) (Q : B → Prop) a b :
  length a = length b → Forall P a → Forall Q b →
  Forall2 (λ ai bi, P ai ∧ Q bi) a b.
Proof.
  intros Hlen Ha. revert b Hlen.
  induction Ha as [|ai a HP _ IH]; intros [|bi b] Hlen Hb; try done.
  inversion_clear Hb. constructor; [done|]. apply IH; [by injection Hlen|done].
Qed.

Lemma np_add_same_shape a b n0 n1 n2 :
  has_shape a n0 n1 n2 → has_shape b n0 n1 n2 →
  np_add a b = Ok (zip_with (zip_with (zip_with add8)) a b).
Proof.
  intros [Ha0 Ha] [Hb0 Hb]. unfold np_add.
  apply bcast_same_length.
  assert (length a = length b) as Hlen by congruence.
  eapply Forall2_impl; [exact (Forall2_of_Forall _ _ a b Hlen Ha Hb)|].
  intros pa pb [[Ha1 Hra] [Hb1 Hrb]]. cbn beta.
  apply bcast_same_length.
  assert (length pa = length pb) as Hlen1 by congruence.
  eapply Forall2_impl; [exact (Forall2_of_Forall _ _ pa pb Hlen1 Hra Hrb)|].
  intros ra rb [Hla Hlb]. cbn beta.
  apply bcast_same_length.
  assert (length ra = length rb) as Hlen2 by congruence.
  assert (Forall (λ _ : Z, True) ra) as Hta by (by apply Forall_forall).
  assert (Forall (λ _ : Z, True) rb) as Htb by (by apply Forall_forall).
  eapply Forall2_impl; [exact (Forall2_of_Forall _ _ ra rb Hlen2 Hta Htb)|].
  done.
Qed.

Lemma zip3_shape {A} (f : A → A → A) (a b : list (list (list A))) n0 n1 n2 :
  has_shape a n0 n1 n2 → has_shape b n0 n1 n2 →
  has_shape (zip_with (zip_with (zip_with f)) a b) n0 n1 n2.
Proof.
  intros [Ha0 Ha] [Hb0 Hb]. split.
  { rewrite length_zip_with. lia. }
  apply Forall_lookup_2. intros i pl Hi.
  apply lookup_zip_with_Some in Hi as (pa & pb & -> & Hpa & Hpb).
  destruct (Forall_lookup_1 _ _ _ _ Ha Hpa) as [Ha1 Hra].
  destruct (Forall_lookup_1 _ _ _ _ Hb Hpb) as [Hb1 Hrb].
  split.
  { rewrite length_zip_with. lia. }
  apply Forall_lookup_2. intros j row Hj.
  apply lookup_zip_with_Some in Hj as (ra & rb & -> & Hrai & Hrbi).
  pose proof (Forall_lookup_1 _ _ _ _ Hra Hrai) as Hla.
  pose proof (Forall_lookup_1 _ _ _ _ Hrb Hrbi) as Hlb.
  cbn beta in Hla, Hlb. rewrite length_zip_with. lia.
Qed.

Lemma get3_zip3 {A} (f : A → A → A) (a b : list (list (list A))) z y x :
  get3 (zip_with (zip_with (zip_with f)) a b) z y x =
  match get3 a z y x, get3 b z y x with
  | Some u, Some v => Some (f u v)
  | _, _ => None
  end.
Proof.
  unfold get3. rewrite lookup_zip_with.
  destruct (a !! z) as [pa|]; cbn; [|done].
  destruct (b !! z) as [pb|]; cbn; [|by repeat case_match].
  rewrite lookup_zip_with.
  destruct (pa !! y) as [ra|]; cbn; [|done].
  destruct (pb !! y) as [rb|]; cbn; [|by repeat case_match].
  rewrite lookup_zip_with.
  destruct (ra !! x) as [u|]; cbn; [|done].
  by destruct (rb !! x) as [v|].
Qed.

Lemma get3_is_Some {A} (m : list (list (list A))) n0 n1 n2 z y x :
  has_shape m n0 n1 n2 →
  is_Some (get3 m z y x) ↔ (z < n0 ∧ y < n1 ∧ x < n2)%nat.
Proof.
  intros [H0 Hall]. unfold get3. split.
  - intros [u Hu].
    destruct (m !! z) as [pl|] eqn:Hz; [|done].
    destruct (pl !! y) as [row|] eqn:Hy; [|done].
    destruct (Forall_lookup_1 _ _ _ _ Hall Hz) as [H1 Hrows].
    pose proof (Forall_lookup_1 _ _ _ _ Hrows Hy) as H2. cbn beta in H2.
    apply lookup_lt_Some in Hz, Hy, Hu. lia.
  - intros (Hz & Hy & Hx).
    destruct (lookup_lt_is_Some_2 m z) as [pl Hpl]; [lia|]. rewrite Hpl.
    destruct (Forall_lookup_1 _ _ _ _ Hall Hpl) as [H1 Hrows].
    destruct (lookup_lt_is_Some_2 pl y) as [row Hrow]; [lia|]. rewrite Hrow.
    pose proof (Forall_lookup_1 _ _ _ _ Hrows Hrow) as H2. cbn beta in H2.
    apply lookup_lt_is_Some_2. lia.
Qed.

Lemma get3_Forall3 {A} (P : A → Prop) (m : list (list (list A))) z y x u :
  Forall3 P m → get3 m z y x = Some u → P u.
Proof.
  unfold get3. intros Hall Hu.
  destruct (m !! z) as [pl|] eqn:Hz; [|done].
  destruct (pl !! y) as [row|] eqn:Hy; [|done].
  pose proof (Forall_lookup_1 _ _ _ _ Hall Hz) as Hpl.
  pose proof (Forall_lookup_1 _ _ _ _ Hpl Hy) as Hrow.
  exact (Forall_lookup_1 _ _ _ _ Hrow Hu).
Qed.

Lemma get3_np_divide (s : ndarray3) n z y x :
  get3 (np_divide s n) z y x =
  (λ v, (Qc_of_Z v / Qc_of_Z n)%Qc) <$> get3 s z y x.
Proof.
  unfold get3, np_divide. rewrite list_lookup_fmap.
  destruct (s !! z) as [pl|]; cbn; [|done].
  rewrite list_lookup_fmap.
  destruct (pl !! y) as [row|]; cbn; [|done].
  by rewrite list_lookup_fmap.
Qed.

Lemma np_divide_shape (s : ndarray3) n n0 n1 n2 :
  has_shape s n0 n1 n2 → has_shape (np_divide s n) n0 n1 n2.
Proof.
  intros [H0 Hall]. unfold np_divide. split; [by rewrite length_fmap|].
  apply Forall_fmap. eapply Forall_impl; [exact Hall|].
  intros pl [H1 Hrows]. cbn. split; [by rewrite length_fmap|].
  apply Forall_fmap. eapply Forall_impl; [exact Hrows|].
  intros row Hrow. cbn. by rewrite length_fmap.
Qed.

Lemma zip3_Forall3 {A} (P : A → Prop) (f : A → A → A) (a b : list (list (list A))) :
  (∀ u v, P (f u v)) → Forall3 P (zip_with (zip_with (zip_with f)) a b).
Proof.
  intros HP. apply Forall_lookup_2. intros i pl Hi.
  apply lookup_zip_with_Some in Hi as (pa & pb & -> & _ & _).
  apply Forall_lookup_2. intros j row Hj.
  apply lookup_zip_with_Some in Hj as (ra & rb & -> & _ & _).
  apply Forall_lookup_2. intros k w Hk.
  apply lookup_zip_with_Some in Hk as (u & v & -> & _ & _). apply HP.
Qed.

(** ** Aggregation *)

Section AggregatorFacts.
Context {polydata : Type}.
Variable IsInside : polydata → point → bool.
Variable reader : string → polydata.
Variable scheds : nat → list nat.
Variable df : list string.
Variables nx ny nz : Z.

Hypothesis Hnx : 0 ≤ nx.
Hypothesis Hny : 0 ≤ ny.
Hypothesis Hnz : 0 ≤ nz.

Lemma get_mesh_polydata_lt i :
  (i < length df)%nat → ∃ pd, get_mesh_polydata reader df i = Ok pd.
Proof.
  intros Hi. unfold get_mesh_polydata.
  destruct (lookup_lt_is_Some_2 df i Hi) as [cell ->]. cbn. eauto.
Qed.

Lemma entry_volume_ok i :
  (i < length df)%nat → ∃ v, entry_volume IsInside reader scheds df nx ny nz i = Ok v ∧ volume_ok nx ny nz v.
Proof.
  intros Hi. unfold entry_volume.
  destruct (get_mesh_polydata_lt i Hi) as [pd ->]. cbn.
  destruct (rasterize_with_pool_ok IsInside 2 (scheds (S i)) pd nx ny nz)
    as (m & Hm & Hok); [done..|].
  exists m. by split.
Qed.

Lemma get_mean_mask_loop_spec range acc :
  Forall (λ i, i < length df)%nat range →
  has_shape acc (Z.to_nat nz) (Z.to_nat ny) (Z.to_nat nx) →
  Forall3 (λ v, 0 ≤ v < 256) acc →
  ∃ vols s,
    Forall2 (λ i v, entry_volume IsInside reader scheds df nx ny nz i = Ok v) range vols ∧
    Forall (volume_ok nx ny nz) vols ∧
    get_mean_mask_loop IsInside reader scheds df (nx, ny, nz) range acc = Ok s ∧
    has_shape s (Z.to_nat nz) (Z.to_nat ny) (Z.to_nat nx) ∧
    Forall3 (λ v, 0 ≤ v < 256) s ∧
    ∀ z y x a, get3 acc z y x = Some a →
               get3 s z y x = Some (uint8 (a + voxel_sum vols z y x)).
Proof.
  intros Hrange. revert acc.
  induction Hrange as [|i range Hi _ IH]; intros acc Hshape Hbound.
  - exists [], acc. split; [constructor|]. split; [constructor|].
    do 3 (split; [done|]).
    intros z y x a Ha. rewrite Ha. f_equal. cbn. rewrite Z.add_0_r.
    unfold uint8. symmetry. apply Z.mod_small.
    exact (get3_Forall3 _ _ _ _ _ _ Hbound Ha).
  - destruct (entry_volume_ok i Hi) as (m & Hm & Hmshape & Hmmark).
    destruct (IH (zip_with (zip_with (zip_with add8)) acc m))
      as (vols & s & Hvols & Hok & Hloop & Hs & Hsb & Hsum).
    { by apply zip3_shape. }
    { apply zip3_Forall3. intros u v. apply uint8_range. }
    exists (m :: vols), s. split; [by constructor|].
    split; [by constructor|]. split.
    { cbn. unfold entry_volume in Hm.
      destruct (get_mesh_polydata reader df i) as [pd|e]; [|done]. cbn in *.
      rewrite Hm. cbn. rewrite (np_add_same_shape _ _ _ _ _ Hshape Hmshape).
      cbn. exact Hloop. }
    split; [done|]. split; [done|].
    intros z y x a Ha.
    assert (is_Some (get3 m z y x)) as [mv Hmv].
    { apply (get3_is_Some _ _ _ _ _ _ _ Hmshape).
      apply (get3_is_Some _ _ _ _ _ _ _ Hshape). eauto. }
    rewrite (Hsum z y x (add8 a mv)).
    + f_equal. rewrite uint8_add8_l. unfold voxel_sum at 2. cbn [foldr].
      rewrite Hmv. done.
    + rewrite get3_zip3, Ha, Hmv. done.
Qed.
Lemma get_mean_mask_total fs :
  df ≠ [] →
  ∃ v0 vols s,
    first_volume IsInside reader scheds df nx ny nz = Ok v0 ∧ volume_ok nx ny nz v0 ∧
    Forall2 (λ i v, entry_volume IsInside reader scheds df nx ny nz i = Ok v) (np_arange (length df)) vols ∧
    Forall (volume_ok nx ny nz) vols ∧
    get_mean_mask IsInside reader scheds fs df (nx, ny, nz) =
      Ok (<["nucleus_mesh_data/mean_nuc_mask.npy" :=
              np_divide s (Z.of_nat (length df))]> fs,
          np_divide s (Z.of_nat (length df))) ∧
    has_shape s (Z.to_nat nz) (Z.to_nat ny) (Z.to_nat nx) ∧
    Forall3 (λ v, 0 ≤ v < 256) s ∧
    ∀ z y x a, get3 v0 z y x = Some a →
               get3 s z y x = Some (uint8 (a + voxel_sum vols z y x)).
Proof.
  intros Hdf.
  assert (0 < length df)%nat as Hlen by (destruct df; [done|cbn; lia]).
  destruct (get_mesh_polydata_lt 0 Hlen) as [pd Hpd].
  destruct (rasterize_with_pool_ok IsInside 2 (scheds 0%nat) pd nx ny nz)
    as (v0 & Hv0 & Hshape & Hmark); [done..|].
  destruct (get_mean_mask_loop_spec (np_arange (length df)) v0)
    as (vols & s & Hvols & Hok & Hloop & Hs & Hsb & Hsum).
  { apply Forall_seq. intros j Hj. lia. }
  { exact Hshape. }
  { eapply Forall_impl; [exact Hmark|]. intros pl Hpl.
    eapply Forall_impl; [exact Hpl|]. intros row Hrow.
    eapply Forall_impl; [exact Hrow|]. intros v [-> | ->]; lia. }
  exists v0, vols, s.
  split; [unfold first_volume; rewrite Hpd; exact Hv0|].
  split; [by split|]. split; [exact Hvols|]. split; [exact Hok|].
  split; [|split; [exact Hs|split; [exact Hsb|exact Hsum]]].
  unfold get_mean_mask. rewrite Hpd, bind_Ok.
  unfold get_binary_mask_from_mesh at 1. rewrite Hv0, bind_Ok.
  rewrite Hloop, bind_Ok. done.
Qed.
End AggregatorFacts.

Lemma get_mean_mask_inv {polydata : Type} (IsInside : polydata → point → bool)
    (reader : string → polydata) scheds fs df nx ny nz r :
  get_mean_mask IsInside reader scheds fs df (nx, ny, nz) = Ok r →
  df ≠ [] ∧ 0 ≤ nx ∧ 0 ≤ ny ∧ 0 ≤ nz.
Proof.
  unfold get_mean_mask, get_mesh_polydata. intros Hr.
  destruct df as [|cell df']; [done|]. split; [done|]. cbn in Hr.
  case_bool_decide as Hneg; [done|]. lia.
Qed.

(** The file written is the mean returned. *)
Lemma get_mean_mask_saved {polydata : Type} (IsInside : polydata → point → bool)
    (reader : string → polydata) scheds fs df imsize mean :
  snd <$> get_mean_mask IsInside reader scheds fs df imsize = Ok mean →
  get_mean_mask IsInside reader scheds fs df imsize =
    Ok (<["nucleus_mesh_data/mean_nuc_mask.npy" := mean]> fs, mean).
Proof.
  unfold get_mean_mask.
  destruct (get_mesh_polydata reader df 0) as [pd|e]; [|done]. rewrite bind_Ok.
  destruct (get_binary_mask_from_mesh IsInside (scheds 0%nat) pd imsize)
    as [v0|e]; [|done]. rewrite bind_Ok.
  destruct (get_mean_mask_loop IsInside reader scheds df imsize _ v0)
    as [s|e]; [|done]. rewrite bind_Ok.
  cbn. by intros [= <-].
Qed.

(** ** Rational quotients *)

Lemma Qc_of_Z_pos n : 0 < n → (0 < Qc_of_Z n)%Qc.
Proof.
  intros Hn. rewrite <-Z2Qc_inj_0. exact (proj1 (Z2Qc_inj_lt 0 n) Hn).
Qed.

Lemma Qc_div_mul_cancel (q d : Qc) : d ≠ 0%Qc → (q / d * d)%Qc = q.
Proof. intros Hd. rewrite Qcmult_comm. by apply Qcmult_div_r. Qed.

Lemma Qc_of_Z_div_inj a b n :
  0 < n → (Qc_of_Z a / Qc_of_Z n)%Qc = (Qc_of_Z b / Qc_of_Z n)%Qc → a = b.
Proof.
  intros Hn Heq. apply Z2Qc_inj.
  assert (Qc_of_Z n ≠ 0%Qc) as Hne.
  { apply not_eq_sym, Qclt_not_eq. by apply Qc_of_Z_pos. }
  rewrite <-(Qc_div_mul_cancel (Qc_of_Z a) (Qc_of_Z n) Hne).
  rewrite <-(Qc_div_mul_cancel (Qc_of_Z b) (Qc_of_Z n) Hne).
  by rewrite Heq.
Qed.

Lemma Qc_of_Z_div_bounds s b n :
  0 ≤ s ≤ b → 1 ≤ n →
  (0 ≤ Qc_of_Z s / Qc_of_Z n)%Qc ∧ (Qc_of_Z s / Qc_of_Z n ≤ Qc_of_Z b)%Qc.
Proof.
  intros [Hs Hb] Hn.
  assert (0 < Qc_of_Z n)%Qc as Hpos by (apply Qc_of_Z_pos; lia).
  assert (Qc_of_Z n ≠ 0%Qc) as Hne by (by apply not_eq_sym, Qclt_not_eq).
  split.
  - apply Qcmult_nonneg_nonneg.
    + rewrite <-Z2Qc_inj_0. exact (proj1 (Z2Qc_inj_le 0 s) Hs).
    + by apply Qclt_le_weak, Qcinv_pos.
  - apply (Qcmult_le_mono_pos_r _ _ (Qc_of_Z n) Hpos).
    rewrite Qc_div_mul_cancel by done.
    rewrite <-Z2Qc_inj_mul. apply (proj1 (Z2Qc_inj_le s (b * n))). nia.
Qed.

(** ** Sums of markers *)

Lemma voxel_term_marker (v : ndarray3) z y x :
  Forall3 marker v → marker (default 0 (get3 v z y x)).
Proof.
  intros Hv. destruct (get3 v z y x) as [u|] eqn:Hu; cbn; [|by left].
  exact (get3_Forall3 _ _ _ _ _ _ Hv Hu).
Qed.

Lemma voxel_sum_cons v vols z y x :
  voxel_sum (v :: vols) z y x = default 0 (get3 v z y x) + voxel_sum vols z y x.
Proof. reflexivity. Qed.

Lemma voxel_sum_nonneg vols z y x :
  Forall (Forall3 marker) vols → 0 ≤ voxel_sum vols z y x.
Proof.
  induction 1 as [|v vols Hv _ IH]; [done|]. rewrite voxel_sum_cons.
  destruct (voxel_term_marker v z y x Hv) as [-> | ->]; lia.
Qed.

Lemma voxel_sum_inside_once vols i vi z y x :
  Forall (Forall3 marker) vols →
  vols !! i = Some vi → get3 vi z y x = Some 255 →
  255 ≤ voxel_sum vols z y x.
Proof.
  intros Hall. revert i. induction Hall as [|v vols Hv Hvols IH]; intros i Hi Hin.
  - done.
  - rewrite voxel_sum_cons. destruct i as [|i]; cbn in Hi.
    + injection Hi as ->. rewrite Hin. cbn [default from_option id].
      pose proof (voxel_sum_nonneg vols z y x Hvols). lia.
    + specialize (IH i Hi Hin).
      destruct (voxel_term_marker v z y x Hv) as [-> | ->]; lia.
Qed.

Lemma voxel_sum_inside_twice vols i j vi vj z y x :
  Forall (Forall3 marker) vols → i ≠ j →
  vols !! i = Some vi → vols !! j = Some vj →
  get3 vi z y x = Some 255 → get3 vj z y x = Some 255 →
  510 ≤ voxel_sum vols z y x.
Proof.
  intros Hall. revert i j.
  induction Hall as [|v vols Hv Hvols IH]; intros i j Hij Hi Hj Hini Hinj.
  - done.
  - rewrite voxel_sum_cons.
    destruct i as [|i], j as [|j]; cbn in Hi, Hj; [done| | |].
    + injection Hi as ->.
      pose proof (voxel_sum_inside_once vols j vj z y x Hvols Hj Hinj) as Hge.
      rewrite Hini. cbn [default from_option id]. lia.
    + injection Hj as ->.
      pose proof (voxel_sum_inside_once vols i vi z y x Hvols Hi Hini) as Hge.
      rewrite Hinj. cbn [default from_option id]. lia.
    + assert (i ≠ j) as Hij' by congruence.
      specialize (IH i j Hij' Hi Hj Hini Hinj).
      destruct (voxel_term_marker v z y x Hv) as [-> | ->]; lia.
Qed.

(** C9: every per-entry volume holds only the markers 0 and 255, and the
    volumes are summed in uint8, that is modulo 256 (255 + 255 = 254).  At
    a voxel that two or more entries mark inside, the accumulated value
    [s] is the sum taken modulo 256 and differs from the integer sum, and
    the mean [s / N] differs from the arithmetic mean of the per-entry
    markers. *)
Theorem get_mean_mask_sum_wraps_mod_256 {polydata : Type}
    (IsInside : polydata → point → bool) (reader : string → polydata)
    (scheds : nat → list nat) (fs fs' : files) (df : list string)
    (nx ny nz : Z) (mean : mean_volume) :
  get_mean_mask IsInside reader scheds fs df (nx, ny, nz) = Ok (fs', mean) →
  add8 255 255 = 254 ∧
  ∃ v0 vols,
    first_volume IsInside reader scheds df nx ny nz = Ok v0 ∧
    Forall2 (λ i v, entry_volume IsInside reader scheds df nx ny nz i = Ok v)
            (np_arange (length df)) vols ∧
    Forall3 marker v0 ∧ Forall (Forall3 marker) vols ∧
    ∀ z y x i j vi vj,
      i ≠ j → vols !! i = Some vi → vols !! j = Some vj →
      get3 vi z y x = Some 255 → get3 vj z y x = Some 255 →
      ∃ a s,
        get3 v0 z y x = Some a ∧
        s = uint8 (a + voxel_sum vols z y x) ∧
        s ≠ a + voxel_sum vols z y x ∧
        get3 mean z y x = Some (Qc_of_Z s / Qc_of_Z (Z.of_nat (length df)))%Qc ∧
        (Qc_of_Z s / Qc_of_Z (Z.of_nat (length df)))%Qc ≠
        (Qc_of_Z (voxel_sum vols z y x) / Qc_of_Z (Z.of_nat (length df)))%Qc.
Proof.
  intros Hget. split; [reflexivity|].
  destruct (get_mean_mask_inv _ _ _ _ _ _ _ _ _ Hget) as (Hdf & Hx & Hy & Hz).
  destruct (get_mean_mask_total IsInside reader scheds df nx ny nz Hx Hy Hz fs Hdf)
    as (v0 & vols & s & Hv0 & [Hv0s Hv0m] & Hvols & Hok & Hrun & Hs & Hsb & Hsum).
  rewrite Hrun in Hget. injection Hget as _ <-.
  assert (Forall (Forall3 marker) vols) as Hmarks.
  { eapply Forall_impl; [exact Hok|]. by intros v [_ Hv]. }
  exists v0, vols. do 4 (split; [done|]).
  intros z y x i j vi vj Hij Hi Hj Hini Hinj.
  assert (is_Some (get3 v0 z y x)) as [a Ha].
  { apply (get3_is_Some _ _ _ _ _ _ _ Hv0s).
    destruct (Forall_lookup_1 _ _ _ _ Hok Hi) as [Hvis _].
    apply (get3_is_Some _ _ _ _ _ _ _ Hvis). eauto. }
  pose proof (voxel_sum_inside_twice vols i j vi vj z y x Hmarks Hij Hi Hj Hini Hinj)
    as Htwice.
  assert (0 ≤ a) as Ha0.
  { destruct (get3_Forall3 _ _ _ _ _ _ Hv0m Ha) as [-> | ->]; lia. }
  pose proof (uint8_range (a + voxel_sum vols z y x)) as Hrange.
  assert (0 < Z.of_nat (length df)) as HN.
  { destruct df; [done|]. cbn. lia. }
  exists a, (uint8 (a + voxel_sum vols z y x)).
  split; [exact Ha|]. split; [reflexivity|]. split; [lia|]. split.
  - rewrite get3_np_divide, (Hsum z y x a Ha). done.
  - intros Heq. apply Qc_of_Z_div_inj in Heq; [lia|exact HN].
Qed.

Lemma get_mean_mask_sum_wraps_mod_256_witness :
  ∃ v0 vols,
    first_volume cuboid_inside cuboid_reader (λ _, []) ["a"; "a"; "b"] 1 1 1 = Ok v0 ∧
    vols = [[[[255]]]; [[[255]]]; [[[0]]]] ∧
    ∃ a s, get3 v0 0 0 0 = Some a ∧ s = uint8 (a + voxel_sum vols 0 0 0) ∧
           s ≠ a + voxel_sum vols 0 0 0.
Proof.
  evaluate (snd <$> get_mean_mask cuboid_inside cuboid_reader (λ _, []) ∅
                      ["a"; "a"; "b"] (1, 1, 1)) as Hrun.
  apply get_mean_mask_saved in Hrun.
  destruct (get_mean_mask_sum_wraps_mod_256 _ _ _ _ _ _ _ _ _ _ Hrun)
    as (_ & v0 & vols & Hv0 & Hvols & _ & _ & Hwrap).
  exists v0, vols. split; [exact Hv0|].
  assert (vols = [[[[255]]]; [[[255]]]; [[[0]]]]) as ->.
  { repeat match goal with
           | H : Forall2 _ _ _ |- _ => inversion H; clear H; subst
           end.
    repeat match goal with
           | H : entry_volume _ _ _ _ _ _ _ _ = Ok _ |- _ =>
               vm_compute in H; injection H as <-
           end.
    reflexivity. }
  split; [reflexivity|].
  destruct (Hwrap 0%nat 0%nat 0%nat 0%nat 1%nat [[[255]]] [[[255]]])
    as (a & s & Ha & Hs & Hne & _);
    [discriminate|reflexivity|reflexivity|reflexivity|reflexivity|].
  exists a, s. split; [exact Ha|]. split; [exact Hs|exact Hne].
Defined.

(** C1 fails on the code: [sum_mask] starts from the volume of entry 0 and
    the loop then adds the volumes of entries 0 .. N-1, so entry 0 is
    rasterized and accumulated twice.  For the one-entry dataset whose mesh
    encloses the only voxel, the volume is [[[255]]] and the mean of the N = 1
    volumes would be 255; the code returns (255 + 255) mod 256 = 254.  For
    two entries of which the first encloses the voxel, the mean of the two
    volumes would be 255/2; the code returns 254/2 = 127. *)
Theorem get_mean_mask_counts_first_entry_twice :
  entry_volume cuboid_inside cuboid_reader (λ _, []) ["a"] 1 1 1 0 = Ok [[[255]]] ∧
  (∃ fs' mean,
      get_mean_mask cuboid_inside cuboid_reader (λ _, []) ∅ ["a"] (1, 1, 1)
        = Ok (fs', mean) ∧
      fs' !! "nucleus_mesh_data/mean_nuc_mask.npy" = Some mean ∧
      get3 mean 0 0 0 = Some (Qc_of_Z 254)) ∧
  entry_volume cuboid_inside cuboid_reader (λ _, []) ["a"; "b"] 1 1 1 1 = Ok [[[0]]] ∧
  (∃ fs' mean,
      get_mean_mask cuboid_inside cuboid_reader (λ _, []) ∅ ["a"; "b"] (1, 1, 1)
        = Ok (fs', mean) ∧
      get3 mean 0 0 0 = Some (Qc_of_Z 127) ∧
      Qc_of_Z 127 ≠ (Qc_of_Z (255 + 0) / Qc_of_Z 2)%Qc).
Proof.
  evaluate (snd <$> get_mean_mask cuboid_inside cuboid_reader (λ _, []) ∅
                      ["a"] (1, 1, 1)) as Hone.
  evaluate (snd <$> get_mean_mask cuboid_inside cuboid_reader (λ _, []) ∅
                      ["a"; "b"] (1, 1, 1)) as Htwo.
  apply get_mean_mask_saved in Hone, Htwo.
  split; [vm_compute; reflexivity|]. split.
  { eexists _, _. split; [exact Hone|]. split; [apply lookup_insert_eq|].
    cbn. f_equal. by apply Qc_is_canon. }
  split; [vm_compute; reflexivity|].
  eexists _, _. split; [exact Htwo|]. split.
  { cbn. f_equal. by apply Qc_is_canon. }
  intros Heq. apply (f_equal this) in Heq. vm_compute in Heq. discriminate Heq.
Qed.

(** C3, as stated, fails: with two entries of which only the second
    encloses the voxel the mean there is 255/2, not a value of [0, 1]. *)
Lemma get_mean_mask_mean_exceeds_one :
  ¬ (∀ (scheds : nat → list nat) (fs fs' : files) (df : list string)
       (imsize : imsize_t) (mean : mean_volume) (z y x : nat) (q : Qc),
       get_mean_mask cuboid_inside cuboid_reader scheds fs df imsize = Ok (fs', mean) →
       get3 mean z y x = Some q → (0 ≤ q)%Qc ∧ (q ≤ 1)%Qc).
Proof.
  intros Hclaim.
  evaluate (snd <$> get_mean_mask cuboid_inside cuboid_reader (λ _, []) ∅
                      ["b"; "a"] (1, 1, 1)) as Hrun.
  apply get_mean_mask_saved in Hrun.
  destruct (Hclaim (λ _, []) ∅ _ ["b"; "a"] (1, 1, 1) _ 0%nat 0%nat 0%nat
              (Q2Qc (255 # 2)) Hrun eq_refl) as [_ Hle].
  vm_compute in Hle. by apply Hle.
Qed.

(** C3 (amended): every element of the mean volume returned by
    [get_mean_mask] is an element [s] of the uint8 sum, an integer of
    [0, 255], divided exactly by the count N; it lies in [0, 255]. *)
Theorem get_mean_mask_elements_in_0_255 {polydata : Type}
    (IsInside : polydata → point → bool) (reader : string → polydata)
    (scheds : nat → list nat) (fs fs' : files) (df : list string)
    (imsize : imsize_t) (mean : mean_volume) (z y x : nat) (q : Qc) :
  get_mean_mask IsInside reader scheds fs df imsize = Ok (fs', mean) →
  get3 mean z y x = Some q →
  ∃ s : Z, 0 ≤ s ≤ 255 ∧
           q = (Qc_of_Z s / Qc_of_Z (Z.of_nat (length df)))%Qc ∧
           (0 ≤ q)%Qc ∧ (q ≤ Qc_of_Z 255)%Qc.
Proof.
  destruct imsize as [[nx ny] nz]. intros Hget Hq.
  destruct (get_mean_mask_inv _ _ _ _ _ _ _ _ _ Hget) as (Hdf & Hx & Hy & Hz).
  destruct (get_mean_mask_total IsInside reader scheds df nx ny nz Hx Hy Hz fs Hdf)
    as (v0 & vols & s & _ & _ & _ & _ & Hrun & _ & Hsb & _).
  rewrite Hrun in Hget. injection Hget as _ <-.
  rewrite get3_np_divide in Hq.
  destruct (get3 s z y x) as [v|] eqn:Hv; [|done]. injection Hq as <-.
  pose proof (get3_Forall3 _ _ _ _ _ _ Hsb Hv) as Hrange. cbn beta in Hrange.
  assert (1 ≤ Z.of_nat (length df)) as HN.
  { destruct df; [done|]. cbn. lia. }
  exists v. split; [lia|]. split; [done|].
  apply Qc_of_Z_div_bounds; lia.
Qed.

Lemma get_mean_mask_elements_in_0_255_witness :
  ∃ s : Z, 0 ≤ s ≤ 255 ∧
           Q2Qc (255 # 2) = (Qc_of_Z s / Qc_of_Z (Z.of_nat (length ["b"; "a"])))%Qc ∧
           (0 ≤ Q2Qc (255 # 2))%Qc ∧ (Q2Qc (255 # 2) ≤ Qc_of_Z 255)%Qc.
Proof.
  evaluate (snd <$> get_mean_mask cuboid_inside cuboid_reader (λ _, []) ∅
                      ["b"; "a"] (1, 1, 1)) as Hrun.
  apply get_mean_mask_saved in Hrun.
  exact (get_mean_mask_elements_in_0_255 cuboid_inside cuboid_reader (λ _, [])
           ∅ _ ["b"; "a"] (1, 1, 1) _ 0%nat 0%nat 0%nat (Q2Qc (255 # 2))
           Hrun eq_refl).
Defined.

(** ** Z-rescaling *)

Section FixZFacts.
Context {F : Type} `{FloatOps F}.

Lemma insert_scale_z dz (vert : list F) z :
  vert !! 2%nat = Some z → <[2%nat := np_imul z dz]> vert = scale_z dz vert.
Proof.
  intros Hz. unfold scale_z.
  destruct vert as [|c0 [|c1 [|c2 vert]]]; try done.
  cbn in Hz. by injection Hz as ->.
Qed.

Lemma scale_z_length dz vert : length (scale_z dz vert) = length vert.
Proof. apply length_alter. Qed.

Lemma scale_z_lookup_ne dz vert j :
  j ≠ 2%nat → scale_z dz vert !! j = vert !! j.
Proof. intros Hj. unfold scale_z. by apply list_lookup_alter_ne. Qed.

Lemma scale_z_lookup_z dz vert :
  scale_z dz vert !! 2%nat = (λ z, np_imul z dz) <$> vert !! 2%nat.
Proof. apply list_lookup_alter_eq. Qed.

(** The loop, started at row [i] with [n] rows to go, rescales the rows
    from [i] on and leaves the rows before [i] as they are. *)
Lemma fix_z_loop_spec (verts : loc) (dz : F) (n : nat) :
  ∀ (i : nat) (σ : gmap loc (list (list F))) (arr : list (list F)),
    σ !! verts = Some arr → (i + n)%nat = length arr →
    Forall (λ vert, 2 < length vert)%nat arr →
    fix_z_loop n i σ verts dz =
      Ok (<[verts := take i arr ++ (scale_z dz <$> drop i arr)]> σ).
Proof.
  induction n as [|n IH]; intros i σ arr Hσ Hlen Hrows.
  - cbn. rewrite take_ge, drop_ge by lia. cbn. rewrite app_nil_r.
    by rewrite insert_id.
  - destruct (lookup_lt_is_Some_2 arr i) as [vert Hvert]; [lia|].
    pose proof (Forall_lookup_1 _ _ _ _ Hrows Hvert) as Hv. cbn beta in Hv.
    destruct (lookup_lt_is_Some_2 vert 2) as [z Hz]; [lia|].
    cbn [fix_z_loop]. rewrite Hσ. cbn [of_option]. rewrite bind_Ok.
    rewrite Hvert. cbn [of_option]. rewrite bind_Ok.
    rewrite Hz. cbn [of_option]. rewrite bind_Ok.
    rewrite (insert_scale_z dz vert z Hz).
    rewrite (IH (S i) _ (<[i := scale_z dz vert]> arr)).
    + rewrite insert_insert_eq. do 2 f_equal.
      rewrite (take_S_r _ _ (scale_z dz vert)).
      2:{ apply list_lookup_insert_eq. lia. }
      rewrite take_insert_ge by lia.
      rewrite drop_insert_lt by lia.
      rewrite (drop_S arr vert i Hvert). cbn. by rewrite <-app_assoc.
    + apply lookup_insert_eq.
    + rewrite length_insert. lia.
    + apply Forall_insert; [done|]. rewrite scale_z_length. done.
Qed.

Lemma fix_z_spec (σ : gmap loc (list (list F))) verts dz imsize arr q :
  σ !! verts = Some arr →
  Forall (λ vert, 2 < length vert)%nat arr →
  py_truediv imsize dz = Ok q →
  fix_z σ verts dz imsize =
    Ok (<[verts := scale_z (corrected_dz imsize q) <$> arr]> σ, verts).
Proof.
  intros Hσ Hrows Hq. unfold fix_z. rewrite Hq, bind_Ok.
  rewrite Hσ. cbn [of_option]. rewrite bind_Ok.
  rewrite (fix_z_loop_spec verts _ (length arr) 0 σ arr Hσ); [|done..].
  rewrite bind_Ok. by rewrite take_0, drop_0.
Qed.
End FixZFacts.

Lemma Qc_truediv_pos (imsize dz : Qc) :
  (0 < dz)%Qc → py_truediv imsize dz = Ok (imsize / dz)%Qc.
Proof.
  intros Hdz. cbn. rewrite decide_False; [done|].
  by apply not_eq_sym, Qclt_not_eq.
Qed.

(** C6: for every vertex array, every z-extent [imsize] and every spacing
    [dz] for which [imsize/dz] is defined (every [dz > 0]), [fix_z] computes
    [nz = round(imsize/dz)] and [dz' = imsize/nz] and returns the vertices
    with each coordinate of index 2 equal to the input one multiplied by
    [dz']. *)
Theorem fix_z_scales_z_by_corrected_spacing {F : Type} `{FloatOps F}
    (σ : gmap loc (list (list F))) (verts : loc) (dz imsize q : F)
    (arr : list (list F)) :
  σ !! verts = Some arr →
  Forall (λ vert, length vert = 3%nat) arr →
  py_truediv imsize dz = Ok q →
  let nz := np_round q in
  let dz' := np_truediv imsize nz in
  ∃ σ' arr',
    fix_z σ verts dz imsize = Ok (σ', verts) ∧
    σ' !! verts = Some arr' ∧
    ∀ i vert, arr !! i = Some vert →
      ∃ z vert', vert !! 2%nat = Some z ∧ arr' !! i = Some vert' ∧
                 vert' !! 2%nat = Some (np_imul z dz').
Proof.
  intros Hσ Hrows Hq nz dz'.
  assert (Forall (λ vert, 2 < length vert)%nat arr) as Hrows'.
  { eapply Forall_impl; [exact Hrows|]. intros vert Hv. cbn beta in Hv. lia. }
  eexists _, _. split; [exact (fix_z_spec σ verts dz imsize arr q Hσ Hrows' Hq)|].
  split; [apply lookup_insert_eq|].
  intros i vert Hvert.
  pose proof (Forall_lookup_1 _ _ _ _ Hrows' Hvert) as Hv. cbn beta in Hv.
  destruct (lookup_lt_is_Some_2 vert 2) as [z Hz]; [lia|].
  exists z, (scale_z dz' vert). split; [exact Hz|]. split.
  - rewrite list_lookup_fmap, Hvert. done.
  - rewrite scale_z_lookup_z, Hz. done.
Qed.

Lemma fix_z_scales_z_by_corrected_spacing_witness :
  ∃ σ' arr',
    fix_z {[ 1%positive := sample_verts ]} 1%positive
          (Q2Qc (3 # 10)) 2%Qc = Ok (σ', 1%positive) ∧
    σ' !! 1%positive = Some arr' ∧
    ∀ i vert, sample_verts !! i = Some vert →
      ∃ z vert', vert !! 2%nat = Some z ∧ arr' !! i = Some vert' ∧
                 vert' !! 2%nat =
                   Some (np_imul z (np_truediv 2%Qc (np_round (2 / Q2Qc (3 # 10))%Qc))).
Proof.
  apply (fix_z_scales_z_by_corrected_spacing
           {[ 1%positive := sample_verts ]} 1%positive
           (Q2Qc (3 # 10)) 2%Qc (2 / Q2Qc (3 # 10))%Qc sample_verts).
  - reflexivity.
  - repeat constructor.
  - apply Qc_truediv_pos. reflexivity.
Defined.

(** C10: [fix_z] updates the vertex array in place and returns the
    reference it was given; the array keeps its number of vertices, every
    vertex keeps its length and its coordinates of index other than 2 (x at
    index 0, y at index 1), and nothing else in the heap changes. *)
Theorem fix_z_in_place {F : Type} `{FloatOps F}
    (σ : gmap loc (list (list F))) (verts : loc) (dz imsize q : F)
    (arr : list (list F)) :
  σ !! verts = Some arr →
  Forall (λ vert, length vert = 3%nat) arr →
  py_truediv imsize dz = Ok q →
  ∃ σ' arr',
    fix_z σ verts dz imsize = Ok (σ', verts) ∧
    σ' !! verts = Some arr' ∧
    (∀ l, l ≠ verts → σ' !! l = σ !! l) ∧
    length arr' = length arr ∧
    ∀ i vert, arr !! i = Some vert →
      ∃ vert', arr' !! i = Some vert' ∧ length vert' = length vert ∧
               vert' !! 0%nat = vert !! 0%nat ∧ vert' !! 1%nat = vert !! 1%nat ∧
               ∀ j, j ≠ 2%nat → vert' !! j = vert !! j.
Proof.
  intros Hσ Hrows Hq.
  assert (Forall (λ vert, 2 < length vert)%nat arr) as Hrows'.
  { eapply Forall_impl; [exact Hrows|]. intros vert Hv. cbn beta in Hv. lia. }
  eexists _, _. split; [exact (fix_z_spec σ verts dz imsize arr q Hσ Hrows' Hq)|].
  split; [apply lookup_insert_eq|].
  split; [intros l Hl; by apply lookup_insert_ne|].
  split; [by rewrite length_fmap|].
  intros i vert Hvert. exists (scale_z (corrected_dz imsize q) vert).
  split; [by rewrite list_lookup_fmap, Hvert|].
  split; [apply scale_z_length|].
  split; [by apply scale_z_lookup_ne|]. split; [by apply scale_z_lookup_ne|].
  intros j Hj. by apply scale_z_lookup_ne.
Qed.

Lemma fix_z_in_place_witness :
  ∃ σ' arr',
    fix_z {[ 1%positive := sample_verts;
             2%positive := other_verts ]} 1%positive
          (Q2Qc (3 # 10)) 2%Qc = Ok (σ', 1%positive) ∧
    σ' !! 1%positive = Some arr' ∧
    σ' !! 2%positive = Some other_verts ∧
    length arr' = 2%nat.
Proof.
  destruct (fix_z_in_place
              {[ 1%positive := sample_verts;
                 2%positive := other_verts ]} 1%positive
              (Q2Qc (3 # 10)) 2%Qc (2 / Q2Qc (3 # 10))%Qc sample_verts)
    as (σ' & arr' & Hrun & Harr & Hframe & Hlen & _).
  - reflexivity.
  - repeat constructor.
  - apply Qc_truediv_pos. reflexivity.
  - exists σ', arr'. split; [exact Hrun|]. split; [exact Harr|].
    split; [|exact Hlen]. by rewrite Hframe.
Defined.

Example Qc_round_half_even :
  Qc_round (Q2Qc (1 # 2)) = Qc_of_Z 0 ∧ Qc_round (Q2Qc (3 # 2)) = Qc_of_Z 2 ∧
  Qc_round (Q2Qc (5 # 2)) = Qc_of_Z 2 ∧ Qc_round (Q2Qc (-1 # 2)) = Qc_of_Z 0 ∧
  Qc_round (Q2Qc (-3 # 2)) = Qc_of_Z (-2) ∧ Qc_round (Q2Qc (20 # 3)) = Qc_of_Z 7.
Proof. repeat split; apply (bool_decide_unpack _); vm_compute; exact I. Qed.

Example fix_z_sample :
  ∃ σ', fix_z {[ 1%positive := sample_verts ]} 1%positive (Q2Qc (3 # 10)) 2%Qc
          = Ok (σ', 1%positive) ∧
        σ' !! 1%positive =
          Some [[Qc_of_Z 1; Qc_of_Z 2; Q2Qc (6 # 7)]; [Qc_of_Z 4; Qc_of_Z 5; Qc_of_Z 2]].
Proof.
  evaluate (fix_z {[ 1%positive := sample_verts ]} 1%positive (Q2Qc (3 # 10)) 2%Qc)
    as Hrun.
  eexists. split; [exact Hrun|].
  apply (bool_decide_unpack _). vm_compute. exact I.
Qed.

(** ** Surface reconstruction and the master function *)

Section ReconstructorFacts.
Context {F : Type} `{FloatOps F}.
Variable marching_cubes_lewiner :
  mean_volume → pyarg → result (list (list F) * list (list nat) * list (list F) * list F).

(** [get_mean_mesh] hands on what marching cubes returns, vertices
    untouched, and raises exactly when marching cubes raises. *)
Lemma get_mean_mesh_Ok mask ss verts faces :
  get_mean_mesh marching_cubes_lewiner mask ss = Ok (verts, faces) ↔
  ∃ normals values,
    marching_cubes_lewiner mask ss = Ok (verts, faces, normals, values).
Proof.
  unfold get_mean_mesh.
  destruct (marching_cubes_lewiner mask ss) as [[[[vs fcs] ns] vals]|e]; cbn.
  - split.
    + intros [= <- <-]. eauto.
    + intros (ns' & vals' & [= <- <- <- <-]). done.
  - split; [done|]. by intros (? & ? & ?).
Qed.

Lemma get_mean_mesh_Err mask ss e :
  get_mean_mesh marching_cubes_lewiner mask ss = Err e ↔
  marching_cubes_lewiner mask ss = Err e.
Proof.
  unfold get_mean_mesh.
  destruct (marching_cubes_lewiner mask ss) as [[[[vs fcs] ns] vals]|e']; cbn.
  - split; done.
  - split; by intros [= <-].
Qed.
End ReconstructorFacts.

(** C4 fails on the code: the master function hands [imsize], a tuple, to
    [get_mean_mesh] in the place of the step size.  Marching cubes raises on
    a step size that is a tuple ([int(step_size)] is a TypeError), so the
    master function returns no surface at all: it raises what
    [get_mean_mask] raises, or else what marching cubes raises on the mean
    volume.  Nor would the surface be rescaled with a proper step size:
    [get_mean_mesh] hands on the vertices of marching cubes as they are,
    [fix_z] is not called and no spacing [dz] reaches either function. *)
Theorem get_mean_mesh_from_individual_meshes_never_returns
    {F : Type} `{FloatOps F} {polydata : Type}
    (marching_cubes_lewiner :
       mean_volume → pyarg → result (list (list F) * list (list nat) * list (list F) * list F))
    (IsInside : polydata → point → bool) (reader : string → polydata)
    (scheds : nat → list nat) (fs : files) (df : list string)
    (imsize : imsize_t) :
  (∀ mask t, ∃ e, marching_cubes_lewiner mask (PyTuple t) = Err e) →
  (∃ e, get_mean_mesh_from_individual_meshes marching_cubes_lewiner IsInside
          reader scheds fs df imsize = Err e ∧
        match get_mean_mask IsInside reader scheds fs df imsize with
        | Ok (_, mask) => marching_cubes_lewiner mask (PyTuple imsize) = Err e
        | Err e' => e = e'
        end) ∧
  ∀ mask ss verts faces,
    get_mean_mesh marching_cubes_lewiner mask ss = Ok (verts, faces) →
    ∃ normals values,
      marching_cubes_lewiner mask ss = Ok (verts, faces, normals, values).
Proof.
  intros Hraises. split.
  - unfold get_mean_mesh_from_individual_meshes.
    destruct (get_mean_mask IsInside reader scheds fs df imsize)
      as [[fs1 mask1]|e1]; [|by exists e1].
    rewrite bind_Ok. destruct (Hraises mask1 imsize) as [e He]. exists e.
    split; [|exact He].
    by rewrite (proj2 (get_mean_mesh_Err marching_cubes_lewiner _ _ e) He).
  - intros mask ss verts faces Hmesh. by apply get_mean_mesh_Ok.
Qed.

Lemma get_mean_mesh_from_individual_meshes_never_returns_witness :
  get_mean_mesh_from_individual_meshes corner_cubes cuboid_inside cuboid_reader
    (λ _, []) ∅ ["a"] (2, 2, 2) = Err TypeError.
Proof.
  destruct (get_mean_mesh_from_individual_meshes_never_returns corner_cubes
              cuboid_inside cuboid_reader (λ _, []) ∅ ["a"] (2, 2, 2))
    as [(e & Hrun & He) _].
  - intros mask t. exists TypeError. reflexivity.
  - evaluate (snd <$> get_mean_mask cuboid_inside cuboid_reader (λ _, []) ∅
                        ["a"] (2, 2, 2)) as Hmask.
    apply get_mean_mask_saved in Hmask. rewrite Hmask in He.
    injection He as <-. exact Hrun.
Defined.

(** ** What the uninterrupted rasterizer computes *)

Lemma foldl_insert_seq {A} (f : nat → A) (k : nat) :
  ∀ (a : nat) (l : list A), (a + k ≤ length l)%nat →
    foldl (λ l i, <[i := f i]> l) l (seq a k) =
    take a l ++ (f <$> seq a k) ++ drop (a + k) l.
Proof.
  induction k as [|k IH]; intros a l Hlen.
  - cbn. rewrite Nat.add_0_r. by rewrite take_drop.
  - cbn [seq foldl]. rewrite IH by (rewrite length_insert; lia).
    rewrite (take_S_r _ _ (f a)) by (apply list_lookup_insert_eq; lia).
    rewrite take_insert_ge by lia. rewrite drop_insert_lt by lia.
    replace (a + S k)%nat with (S a + k)%nat by lia.
    by rewrite <-app_assoc.
Qed.

Lemma foldl_insert_all {A} (f : nat → A) (l : list A) (k : nat) :
  length l = k →
  foldl (λ l i, <[i := f i]> l) l (seq 0 k) = f <$> seq 0 k.
Proof.
  intros <-. rewrite foldl_insert_seq by lia. cbn. rewrite drop_ge by lia.
  by rewrite app_nil_r.
Qed.

Section Meshgrid.
Variables nx ny : nat.

Lemma grid_x_from (a c j : nat) :
  (j < c * ny)%nat →
  concat (map (λ bi, map (λ _ : nat, bi) (seq 0 ny)) (seq a c)) !! j
    = Some (a + j / ny)%nat.
Proof.
  revert a j. induction c as [|c IH]; intros a j Hj; [lia|].
  assert (0 < ny)%nat as Hny by (destruct ny; lia).
  cbn [seq map concat].
  destruct (decide (j < ny)%nat) as [Hlt|Hge].
  - rewrite lookup_app_l by (by rewrite length_map, length_seq).
    change (map ?f ?l) with (f <$> l).
    rewrite list_lookup_fmap, lookup_seq_lt by done. cbn.
    rewrite Nat.div_small by done. f_equal. lia.
  - rewrite lookup_app_r by (rewrite length_map, length_seq; lia).
    rewrite length_map, length_seq. rewrite IH by lia. f_equal.
    replace j with ((j - ny) + 1 * ny)%nat at 2 by lia.
    rewrite Nat.div_add by lia. lia.
Qed.

Lemma grid_y_from (a c j : nat) :
  (j < c * ny)%nat →
  concat (map (λ _ : nat, seq 0 ny) (seq a c)) !! j = Some (j mod ny)%nat.
Proof.
  revert a j. induction c as [|c IH]; intros a j Hj; [lia|].
  assert (0 < ny)%nat as Hny by (destruct ny; lia).
  cbn [seq map concat].
  destruct (decide (j < ny)%nat) as [Hlt|Hge].
  - rewrite lookup_app_l by (by rewrite length_seq).
    rewrite lookup_seq_lt by done. cbn.
    by rewrite Nat.mod_small.
  - rewrite lookup_app_r by (rewrite length_seq; lia).
    rewrite length_seq. rewrite IH by lia. f_equal.
    replace j with ((j - ny) + 1 * ny)%nat at 2 by lia.
    by rewrite Nat.Div0.mod_add.
Qed.

Lemma grid_x_lookup j : (j < nx * ny)%nat → grid_x nx ny !! j = Some (j / ny)%nat.
Proof.
  intros Hj. unfold grid_x, np_meshgrid, flatten, np_arange. cbn [snd].
  by rewrite grid_x_from.
Qed.

Lemma grid_y_lookup j : (j < nx * ny)%nat → grid_y nx ny !! j = Some (j mod ny)%nat.
Proof.
  intros Hj. unfold grid_y, np_meshgrid, flatten, np_arange. cbn [fst].
  by rewrite grid_y_from.
Qed.

Lemma grid_y_length : length (grid_y nx ny) = (nx * ny)%nat.
Proof.
  unfold grid_y, np_meshgrid, flatten, np_arange. cbn [fst].
  assert (∀ c a, length (concat (map (λ _ : nat, seq 0 ny) (seq a c)))
                 = (c * ny)%nat) as Hlen; [|apply Hlen].
  induction c as [|c IH]; intros a; [done|].
  cbn [seq map concat]. rewrite length_app, length_seq, IH. lia.
Qed.

Lemma grid_x_length : length (grid_x nx ny) = (nx * ny)%nat.
Proof.
  unfold grid_x, np_meshgrid, flatten, np_arange. cbn [snd].
  assert (∀ c a, length (concat (map (λ bi, map (λ _ : nat, bi) (seq 0 ny))
                                     (seq a c)))
                 = (c * ny)%nat) as Hlen; [|apply Hlen].
  induction c as [|c IH]; intros a; [done|].
  cbn [seq map concat]. rewrite length_app, length_map, length_seq, IH. lia.
Qed.
End Meshgrid.

Lemma get3_set3_eq (m : ndarray3) z y x v n0 n1 n2 :
  has_shape m n0 n1 n2 → (z < n0)%nat → (y < n1)%nat → (x < n2)%nat →
  get3 (set3 m z y x v) z y x = Some v.
Proof.
  intros [H0 Hall] Hz Hy Hx. unfold get3, set3.
  destruct (lookup_lt_is_Some_2 m z) as [pl Hpl]; [lia|].
  destruct (Forall_lookup_1 _ _ _ _ Hall Hpl) as [H1 Hrows].
  destruct (lookup_lt_is_Some_2 pl y) as [row Hrow]; [lia|].
  pose proof (Forall_lookup_1 _ _ _ _ Hrows Hrow) as H2. cbn beta in H2.
  rewrite list_lookup_alter_eq, Hpl. cbn.
  rewrite list_lookup_alter_eq, Hrow. cbn.
  apply list_lookup_insert_eq. lia.
Qed.

Lemma get3_set3_ne (m : ndarray3) z y x v z' y' x' :
  (z, y, x) ≠ (z', y', x') →
  get3 (set3 m z y x v) z' y' x' = get3 m z' y' x'.
Proof.
  intros Hne. unfold get3, set3.
  destruct (decide (z = z')) as [<-|Hz]; [|by rewrite list_lookup_alter_ne].
  rewrite list_lookup_alter_eq. destruct (m !! z) as [pl|]; cbn; [|done].
  destruct (decide (y = y')) as [<-|Hy]; [|by rewrite list_lookup_alter_ne].
  rewrite list_lookup_alter_eq. destruct (pl !! y) as [row|]; cbn; [|done].
  apply list_lookup_insert_ne. congruence.
Qed.

Lemma scatter_other_plane m z y x vals z' y' x' :
  z' ≠ z → get3 (scatter m z y x vals) z' y' x' = get3 m z' y' x'.
Proof.
  intros Hz. unfold scatter. generalize (zip (zip y x) vals) as l. intros l.
  revert m. induction l as [|[[yk xk] v] l IH]; intros m; [done|].
  cbn [foldl]. rewrite IH. apply get3_set3_ne. congruence.
Qed.

Lemma foldl_set3_skip (l : list (nat * nat * Z)) (m : ndarray3) z y' x' :
  Forall (λ e, e.1 ≠ (y', x')) l →
  get3 (foldl (λ acc '(yk, xk, v), set3 acc z yk xk v) m l) z y' x'
    = get3 m z y' x'.
Proof.
  intros Hl. revert m. induction Hl as [|[[yk xk] v] l Hk _ IH]; intros m; [done|].
  cbn [foldl]. rewrite IH. apply get3_set3_ne. cbn in Hk. congruence.
Qed.

Lemma foldl_set3_hit (l : list (nat * nat * Z)) z y' x' v n0 n1 n2 :
  (z < n0)%nat → (y' < n1)%nat → (x' < n2)%nat →
  ∀ (m : ndarray3) (j : nat),
    has_shape m n0 n1 n2 →
    l !! j = Some (y', x', v) →
    (∀ j' e, l !! j' = Some (y', x', e) → j' = j) →
    get3 (foldl (λ acc '(yk, xk, v), set3 acc z yk xk v) m l) z y' x' = Some v.
Proof.
  intros Hz Hy Hx. induction l as [|[[yk xk] vk] l IH]; intros m j Hm Hj Huniq.
  - done.
  - cbn [foldl]. destruct j as [|j].
    + injection Hj as -> -> ->. rewrite foldl_set3_skip.
      * by eapply get3_set3_eq.
      * apply Forall_lookup_2. intros i [[yi xi] vi] Hi [= -> ->].
        by specialize (Huniq (S i) vi Hi).
    + apply (IH _ j); [by apply set3_shape|exact Hj|].
      intros j' e He. specialize (Huniq (S j') e He). lia.
Qed.

Lemma scatter_lookup m z y x vals n0 n1 n2 j y' x' v :
  has_shape m n0 n1 n2 → (z < n0)%nat → (y' < n1)%nat → (x' < n2)%nat →
  y !! j = Some y' → x !! j = Some x' → vals !! j = Some v →
  (∀ j', y !! j' = Some y' → x !! j' = Some x' → j' = j) →
  get3 (scatter m z y x vals) z y' x' = Some v.
Proof.
  intros Hm Hz Hy Hx Hyj Hxj Hvj Huniq. unfold scatter.
  apply (foldl_set3_hit _ z y' x' v n0 n1 n2 Hz Hy Hx m j Hm).
  - apply lookup_zip_with_Some. exists (y', x'), v. split; [done|].
    split; [|done]. apply lookup_zip_with_Some. by exists y', x'.
  - intros j' e He.
    apply lookup_zip_with_Some in He as (yx & e' & Heq & Hyx & _).
    apply lookup_zip_with_Some in Hyx as (yk & xk & -> & Hyk & Hxk).
    injection Heq as <- <- _. by apply Huniq.
Qed.

Lemma ndarray3_ext {A} (a b : list (list (list A))) n0 n1 n2 :
  has_shape a n0 n1 n2 → has_shape b n0 n1 n2 →
  (∀ z y x, (z < n0)%nat → (y < n1)%nat → (x < n2)%nat →
            get3 a z y x = get3 b z y x) →
  a = b.
Proof.
  intros [Ha0 Ha] [Hb0 Hb] Hget. apply list_eq. intros z.
  destruct (decide (z < n0)%nat) as [Hz|Hz].
  2:{ rewrite !lookup_ge_None_2 by lia. done. }
  destruct (lookup_lt_is_Some_2 a z) as [pa Hpa]; [lia|].
  destruct (lookup_lt_is_Some_2 b z) as [pb Hpb]; [lia|].
  rewrite Hpa, Hpb. f_equal.
  destruct (Forall_lookup_1 _ _ _ _ Ha Hpa) as [Ha1 Hra].
  destruct (Forall_lookup_1 _ _ _ _ Hb Hpb) as [Hb1 Hrb].
  apply list_eq. intros y.
  destruct (decide (y < n1)%nat) as [Hy|Hy].
  2:{ rewrite !lookup_ge_None_2 by lia. done. }
  destruct (lookup_lt_is_Some_2 pa y) as [ra Hrai]; [lia|].
  destruct (lookup_lt_is_Some_2 pb y) as [rb Hrbi]; [lia|].
  rewrite Hrai, Hrbi. f_equal.
  pose proof (Forall_lookup_1 _ _ _ _ Hra Hrai) as Hla.
  pose proof (Forall_lookup_1 _ _ _ _ Hrb Hrbi) as Hlb.
  cbn beta in Hla, Hlb.
  apply list_eq. intros x.
  destruct (decide (x < n2)%nat) as [Hx|Hx].
  2:{ rewrite !lookup_ge_None_2 by lia. done. }
  specialize (Hget z y x Hz Hy Hx). unfold get3 in Hget.
  by rewrite Hpa, Hpb, Hrai, Hrbi in Hget.
Qed.

Section SequentialRasterizer.
Context {polydata : Type}.
Variable IsInside : polydata → point → bool.
Variable surface : polydata.
Variables nx ny nz : nat.

Local Abbreviation X := (grid_x nx ny).
Local Abbreviation Y := (grid_y nx ny).
Local Abbreviation n := (nx * ny)%nat.

Lemma foldl_set_point z s range :
  foldl (set_point X Y z) s range =
  Shared (mask s) (foldl (λ l i, <[i := grid_point nx ny z i]> l) (xypts s) range)
         (vert_is_inside s).
Proof.
  revert s. induction range as [|i range IH]; intros s; [by destruct s|].
  cbn [foldl]. by rewrite IH.
Qed.

Lemma foldl_set_inside enc s range :
  foldl (set_inside enc) s range =
  Shared (mask s) (xypts s)
         (foldl (λ l i, <[i := Z.b2z (enc !!! i)]> l) (vert_is_inside s) range).
Proof.
  revert s. induction range as [|i range IH]; intros s; [by destruct s|].
  cbn [foldl]. by rewrite IH.
Qed.

Lemma grid_index_div_mod y x :
  (y < ny)%nat → ((x * ny + y) / ny = x ∧ (x * ny + y) mod ny = y)%nat.
Proof.
  intros Hy. split.
  - rewrite Nat.div_add_l by lia. rewrite Nat.div_small by done. lia.
  - rewrite Nat.add_comm, Nat.Div0.mod_add. by apply Nat.mod_small.
Qed.

Lemma grid_point_at y x z :
  (y < ny)%nat → (x < nx)%nat →
  grid_point nx ny z (x * ny + y) = (Z.of_nat x, Z.of_nat y, Z.of_nat z).
Proof.
  intros Hy Hx. unfold grid_point.
  assert (x * ny + y < n)%nat as Hj by nia.
  rewrite (list_lookup_total_correct _ _ _ (grid_x_lookup nx ny _ Hj)).
  rewrite (list_lookup_total_correct _ _ _ (grid_y_lookup nx ny _ Hj)).
  destruct (grid_index_div_mod y x Hy) as [-> ->]. done.
Qed.

(** An uninterrupted call overwrites both buffers and writes plane [z]. *)
Lemma ProcessThisPlane_spec z s :
  length (xypts s) = n → length (vert_is_inside s) = n →
  ProcessThisPlane IsInside surface X Y n z s =
  Shared (scatter (mask s) z Y X
            ((λ i, inside_marker IsInside surface (grid_point nx ny z i)) <$> seq 0 n))
         (grid_point nx ny z <$> seq 0 n)
         ((λ i, Z.b2z (IsInside surface (grid_point nx ny z i))) <$> seq 0 n).
Proof.
  intros Hpts Hins. unfold ProcessThisPlane, np_arange.
  rewrite foldl_set_point, (foldl_insert_all _ _ n Hpts).
  unfold enclosed. cbn [xypts mask vert_is_inside].
  rewrite foldl_set_inside. cbn [xypts mask vert_is_inside].
  rewrite (foldl_insert_all _ _ n Hins).
  assert ((λ i, Z.b2z ((IsInside surface <$> (grid_point nx ny z <$> seq 0 n)) !!! i))
            <$> seq 0 n =
          (λ i, Z.b2z (IsInside surface (grid_point nx ny z i))) <$> seq 0 n) as ->.
  { apply Forall_fmap_ext, Forall_seq. intros i Hi. f_equal.
    apply list_lookup_total_correct.
    rewrite !list_lookup_fmap, lookup_seq_lt by lia. done. }
  unfold store, scaled. cbn [xypts mask vert_is_inside]. f_equal. f_equal.
  rewrite <-list_fmap_compose. apply list_fmap_ext. intros _ i _. cbn.
  unfold inside_marker. by destruct (IsInside surface (grid_point nx ny z i)).
Qed.

Lemma occupancy_plane_shape z :
  length (occupancy_plane IsInside surface nx ny z) = ny ∧
  Forall (λ row, length row = nx) (occupancy_plane IsInside surface nx ny z).
Proof.
  unfold occupancy_plane. split; [by rewrite length_fmap, length_seq|].
  apply Forall_fmap, Forall_forall. intros y _. cbn.
  by rewrite length_fmap, length_seq.
Qed.

Lemma scatter_plane z (m : ndarray3) :
  has_shape m nz ny nx → (z < nz)%nat →
  scatter m z Y X
    ((λ i, inside_marker IsInside surface (grid_point nx ny z i)) <$> seq 0 n)
  = <[z := occupancy_plane IsInside surface nx ny z]> m.
Proof.
  intros Hm Hz. apply (ndarray3_ext _ _ nz ny nx).
  { by apply scatter_shape. }
  { destruct Hm as [H0 Hall]. split; [by rewrite length_insert|].
    apply Forall_insert; [done|]. apply occupancy_plane_shape. }
  intros z' y' x' Hz' Hy' Hx'.
  destruct (decide (z' = z)) as [->|Hne].
  - assert (x' * ny + y' < n)%nat as Hj by nia.
    rewrite (scatter_lookup m z Y X _ nz ny nx (x' * ny + y') y' x'
               (inside_marker IsInside surface
                  (Z.of_nat x', Z.of_nat y', Z.of_nat z)) Hm Hz Hy' Hx').
    + unfold get3. rewrite list_lookup_insert_eq by (destruct Hm; lia).
      unfold occupancy_plane.
      rewrite list_lookup_fmap, lookup_seq_lt by done. cbn.
      rewrite list_lookup_fmap, lookup_seq_lt by done. done.
    + rewrite grid_y_lookup by done. f_equal.
      by apply grid_index_div_mod.
    + rewrite grid_x_lookup by done. f_equal.
      by apply grid_index_div_mod.
    + rewrite list_lookup_fmap, lookup_seq_lt by done. cbn.
      by rewrite grid_point_at.
    + intros j' Hyj Hxj.
      assert (j' < n)%nat as Hj'.
      { apply lookup_lt_Some in Hyj. by rewrite grid_y_length in Hyj. }
      rewrite grid_y_lookup in Hyj by done. rewrite grid_x_lookup in Hxj by done.
      injection Hyj as <-. injection Hxj as <-.
      rewrite (Nat.div_mod_eq j' ny) at 1. lia.
  - rewrite scatter_other_plane by done. unfold get3.
    by rewrite list_lookup_insert_ne.
Qed.

Lemma planes_in_order (zs : list nat) :
  ∀ s, Forall (λ z, z < nz)%nat zs →
    has_shape (mask s) nz ny nx →
    length (xypts s) = n → length (vert_is_inside s) = n →
    mask (foldl (λ s z, ProcessThisPlane IsInside surface X Y n z s) s zs) =
    foldl (λ m z, <[z := occupancy_plane IsInside surface nx ny z]> m) (mask s) zs.
Proof.
  induction zs as [|z zs IH]; intros s Hzs Hm Hpts Hins; [done|].
  inversion_clear Hzs as [|?? Hz Hrest]. cbn [foldl].
  rewrite IH; [|done|..].
  - by rewrite ProcessThisPlane_spec, scatter_plane.
  - rewrite ProcessThisPlane_spec by done. cbn [mask].
    by apply scatter_shape.
  - rewrite ProcessThisPlane_spec by done. cbn [xypts].
    by rewrite length_fmap, length_seq.
  - rewrite ProcessThisPlane_spec by done. cbn [vert_is_inside].
    by rewrite length_fmap, length_seq.
Qed.
End SequentialRasterizer.

Section RasterizerResult.
Context {polydata : Type}.
Variable IsInside : polydata → point → bool.

Lemma planes_from_zeros surface (nx ny nz : nat) pts ins :
  length pts = (nx * ny)%nat → length ins = (nx * ny)%nat →
  mask (foldl (λ s z, ProcessThisPlane IsInside surface (grid_x nx ny)
                        (grid_y nx ny) (nx * ny) z s)
              (Shared (np_zeros nz ny nx) pts ins) (np_arange nz)) =
  occupancy IsInside surface nx ny nz.
Proof.
  intros Hpts Hins. rewrite (planes_in_order IsInside surface nx ny nz).
  - cbn [mask]. unfold np_arange.
    rewrite (foldl_insert_all _ _ nz); [done|]. apply length_replicate.
  - apply Forall_seq. intros z Hz. lia.
  - apply has_shape_np_zeros.
  - exact Hpts.
  - exact Hins.
Qed.

Lemma rasterize_sequential n_jobs sched surface nx ny nz :
  0 ≤ nx → 0 ≤ ny → 0 ≤ nz →
  (∀ x y n s k,
     Parallel IsInside surface x y n n_jobs sched s k =
     foldl (λ s z, ProcessThisPlane IsInside surface x y n z s) s (np_arange k)) →
  rasterize_with_pool IsInside n_jobs sched surface (nx, ny, nz) =
  Ok (occupancy IsInside surface (Z.to_nat nx) (Z.to_nat ny) (Z.to_nat nz)).
Proof.
  intros Hx Hy Hz Hseq. unfold rasterize_with_pool.
  rewrite bool_decide_eq_false_2 by lia. cbn zeta. f_equal. rewrite Hseq.
  change (flatten (map (λ bi : nat, map (λ _ : nat, bi) (np_arange (Z.to_nat ny)))
                       (np_arange (Z.to_nat nx))))
    with (grid_x (Z.to_nat nx) (Z.to_nat ny)).
  change (flatten (map (λ _ : nat, np_arange (Z.to_nat ny)) (np_arange (Z.to_nat nx))))
    with (grid_y (Z.to_nat nx) (Z.to_nat ny)).
  rewrite grid_y_length. apply planes_from_zeros.
  - unfold np_arange. rewrite (foldl_insert_all _ _ _ (length_replicate _ _)).
    by rewrite length_fmap, length_seq.
  - apply length_replicate.
Qed.

(** With one worker the rasterizer returns the occupancy volume of the
    surface under every schedule. *)
Lemma rasterize_one_worker sched surface nx ny nz :
  0 ≤ nx → 0 ≤ ny → 0 ≤ nz →
  rasterize_with_pool IsInside 1 sched surface (nx, ny, nz) =
  Ok (occupancy IsInside surface (Z.to_nat nx) (Z.to_nat ny) (Z.to_nat nz)).
Proof.
  intros Hx Hy Hz. apply rasterize_sequential; [done..|].
  intros. apply Parallel_one_worker.
Qed.

(** With any number of workers it does so when no thread is switched out
    before its call returns. *)
Lemma rasterize_unswitched n_jobs surface nx ny nz :
  0 ≤ nx → 0 ≤ ny → 0 ≤ nz →
  rasterize_with_pool IsInside n_jobs [] surface (nx, ny, nz) =
  Ok (occupancy IsInside surface (Z.to_nat nx) (Z.to_nat ny) (Z.to_nat nz)).
Proof.
  intros Hx Hy Hz. apply rasterize_sequential; [done..|].
  intros. apply Parallel_unswitched.
Qed.
End RasterizerResult.

(** C2 fails on the code: the two workers share [xypts] and
    [vert_is_inside], so the volume depends on how the threads interleave.
    For the unit cuboid and size (1, 1, 2), the run without thread switches
    marks the voxel at z = 0, while the run in which the second worker
    moves the shared point to z = 1 before the first worker's [Update]
    marks nothing.  A pool of one worker returns the first volume under
    every schedule. *)
Theorem get_binary_mask_from_mesh_depends_on_schedule :
  get_binary_mask_from_mesh cuboid_inside [] unit_cuboid (1, 1, 2)
    = Ok [[[255]]; [[0]]] ∧
  get_binary_mask_from_mesh cuboid_inside [0; 1; 0; 1]%nat unit_cuboid (1, 1, 2)
    = Ok [[[0]]; [[0]]] ∧
  ∀ sched : list nat,
    rasterize_with_pool cuboid_inside 1 sched unit_cuboid (1, 1, 2)
      = Ok [[[255]]; [[0]]].
Proof.
  split; [vm_compute; reflexivity|]. split; [vm_compute; reflexivity|].
  intros sched. rewrite rasterize_one_worker by lia. vm_compute. reflexivity.
Qed.

(** * Further properties of the module *)

(** ** The rasterizer without thread switches *)

Lemma get3_occupancy {polydata : Type} (IsInside : polydata → point → bool)
    (surface : polydata) (nx ny nz z y x : nat) :
  (z < nz)%nat → (y < ny)%nat → (x < nx)%nat →
  get3 (occupancy IsInside surface nx ny nz) z y x =
  Some (inside_marker IsInside surface (Z.of_nat x, Z.of_nat y, Z.of_nat z)).
Proof.
  intros Hz Hy Hx. unfold get3, occupancy.
  rewrite list_lookup_fmap, lookup_seq_lt by done. cbn.
  rewrite list_lookup_fmap, lookup_seq_lt by done. cbn.
  by rewrite list_lookup_fmap, lookup_seq_lt by done.
Qed.

(** When no thread is switched out before its call returns, the volume
    holds 255 exactly at the grid points the surface encloses and 0 at all
    others. *)
Theorem get_binary_mask_from_mesh_marks_enclosed_points {polydata : Type}
    (IsInside : polydata → point → bool) (surface : polydata)
    (nx ny nz : Z) (z y x : nat) :
  0 ≤ nx → 0 ≤ ny → 0 ≤ nz →
  (z < Z.to_nat nz)%nat → (y < Z.to_nat ny)%nat → (x < Z.to_nat nx)%nat →
  ∃ m, get_binary_mask_from_mesh IsInside [] surface (nx, ny, nz) = Ok m ∧
       get3 m z y x =
         Some (if IsInside surface (Z.of_nat x, Z.of_nat y, Z.of_nat z)
               then 255 else 0).
Proof.
  intros Hnx Hny Hnz Hz Hy Hx. eexists. split.
  - unfold get_binary_mask_from_mesh. by apply rasterize_unswitched.
  - by rewrite get3_occupancy.
Qed.

Lemma get_binary_mask_from_mesh_marks_enclosed_points_witness :
  ∃ m, get_binary_mask_from_mesh cuboid_inside [] unit_cuboid (2, 2, 2) = Ok m ∧
       get3 m 0 0 0 =
         Some (if cuboid_inside unit_cuboid (0, 0, 0) then 255 else 0).
Proof.
  apply (get_binary_mask_from_mesh_marks_enclosed_points cuboid_inside unit_cuboid
           2 2 2 0 0 0); lia.
Defined.

(** ** Outcomes of the aggregation *)

(** [get_mean_mask] raises a KeyError on a dataset without rows and, on a
    dataset with rows, a ValueError when a component of the size is
    negative.  Whenever it returns, under whatever thread schedule, the
    dataset has rows, the size is non-negative and the mean volume has the
    shape (nz, ny, nx).  (Whether it returns depends on the file system
    too: [np.save] needs the directory to be there.) *)
Theorem get_mean_mask_errors_and_shape {polydata : Type}
    (IsInside : polydata → point → bool) (reader : string → polydata)
    (scheds : nat → list nat) (fs : files) (df : list string) (nx ny nz : Z) :
  (df = [] →
   get_mean_mask IsInside reader scheds fs df (nx, ny, nz) = Err KeyError) ∧
  (df ≠ [] → nx < 0 ∨ ny < 0 ∨ nz < 0 →
   get_mean_mask IsInside reader scheds fs df (nx, ny, nz) = Err ValueError) ∧
  (∀ fs' mean,
     get_mean_mask IsInside reader scheds fs df (nx, ny, nz) = Ok (fs', mean) →
     df ≠ [] ∧ 0 ≤ nx ∧ 0 ≤ ny ∧ 0 ≤ nz ∧
     has_shape mean (Z.to_nat nz) (Z.to_nat ny) (Z.to_nat nx)).
Proof.
  split; [|split].
  - by intros ->.
  - intros Hdf Hneg. destruct df as [|cell df']; [done|].
    unfold get_mean_mask, get_mesh_polydata. cbn [lookup list_lookup of_option].
    rewrite !bind_Ok. unfold get_binary_mask_from_mesh, rasterize_with_pool.
    by rewrite bool_decide_eq_true_2.
  - intros fs' mean Hrun.
    destruct (get_mean_mask_inv _ _ _ _ _ _ _ _ _ Hrun) as (Hdf & Hnx & Hny & Hnz).
    destruct (get_mean_mask_total IsInside reader scheds df nx ny nz Hnx Hny Hnz
                fs Hdf) as (v0 & vols & s & _ & _ & _ & _ & Hrun' & Hs & _ & _).
    rewrite Hrun' in Hrun. injection Hrun as _ <-.
    split; [done|]. split; [done|]. split; [done|]. split; [done|].
    by apply np_divide_shape.
Qed.

Lemma get_mean_mask_errors_and_shape_witness :
  get_mean_mask cuboid_inside cuboid_reader (λ _, [0; 1]%nat) ∅ [] (1, 1, 2)
    = Err KeyError ∧
  get_mean_mask cuboid_inside cuboid_reader (λ _, [0; 1]%nat) ∅ ["a"] (1, -1, 2)
    = Err ValueError ∧
  ∃ fs' mean,
    get_mean_mask cuboid_inside cuboid_reader (λ _, [0; 1]%nat) ∅ ["a"; "b"]
      (1, 1, 2) = Ok (fs', mean) ∧
    has_shape mean (Z.to_nat 2) (Z.to_nat 1) (Z.to_nat 1).
Proof.
  split; [|split].
  - apply (proj1 (get_mean_mask_errors_and_shape cuboid_inside cuboid_reader
                    (λ _, [0; 1]%nat) ∅ [] 1 1 2)). reflexivity.
  - apply (proj1 (proj2 (get_mean_mask_errors_and_shape cuboid_inside
                           cuboid_reader (λ _, [0; 1]%nat) ∅ ["a"] 1 (-1) 2)));
      [discriminate|lia].
  - evaluate (snd <$> get_mean_mask cuboid_inside cuboid_reader (λ _, [0; 1]%nat)
                        ∅ ["a"; "b"] (1, 1, 2)) as Hrun.
    apply get_mean_mask_saved in Hrun. eexists _, _. split; [exact Hrun|].
    destruct (proj2 (proj2 (get_mean_mask_errors_and_shape cuboid_inside
                              cuboid_reader (λ _, [0; 1]%nat) ∅ ["a"; "b"] 1 1 2))
                _ _ Hrun) as (_ & _ & _ & _ & Hshape).
    exact Hshape.
Defined.

(** The mean that is returned is the mean that is saved, under the one
    name [mean_nuc_mask.npy]; a file of that name is overwritten and no
    other file is touched. *)
Theorem get_mean_mask_saves_the_mean {polydata : Type}
    (IsInside : polydata → point → bool) (reader : string → polydata)
    (scheds : nat → list nat) (fs fs' : files) (df : list string)
    (imsize : imsize_t) (mean : mean_volume) :
  get_mean_mask IsInside reader scheds fs df imsize = Ok (fs', mean) →
  fs' !! "nucleus_mesh_data/mean_nuc_mask.npy" = Some mean ∧
  ∀ name, name ≠ "nucleus_mesh_data/mean_nuc_mask.npy" → fs' !! name = fs !! name.
Proof.
  intros Hrun.
  assert (snd <$> get_mean_mask IsInside reader scheds fs df imsize = Ok mean) as Hsnd.
  { by rewrite Hrun. }
  apply get_mean_mask_saved in Hsnd. rewrite Hsnd in Hrun.
  injection Hrun as <-. split; [apply lookup_insert_eq|].
  intros name Hname. by apply lookup_insert_ne.
Qed.

Lemma get_mean_mask_saves_the_mean_witness :
  ∃ fs' mean,
    get_mean_mask cuboid_inside cuboid_reader (λ _, [0; 1]%nat)
      {[ "old.npy" := [] ]} ["a"; "b"] (1, 1, 2) = Ok (fs', mean) ∧
    fs' !! "nucleus_mesh_data/mean_nuc_mask.npy" = Some mean ∧
    fs' !! "old.npy" = Some [].
Proof.
  evaluate (snd <$> get_mean_mask cuboid_inside cuboid_reader (λ _, [0; 1]%nat)
                      {[ "old.npy" := [] ]} ["a"; "b"] (1, 1, 2)) as Hrun.
  apply get_mean_mask_saved in Hrun.
  eexists _, _. split; [exact Hrun|].
  destruct (get_mean_mask_saves_the_mean _ _ _ _ _ _ _ _ Hrun) as [Hsaved Hother].
  split; [exact Hsaved|]. by rewrite Hother.
Defined.

(** ** The mean in terms of the meshes *)

Lemma Forall2_Ok_fmap {A B} (f : A → result B) (g : A → B) (l : list A) (vs : list B) :
  Forall2 (λ a v, f a = Ok v) l vs → (∀ a, a ∈ l → f a = Ok (g a)) → vs = g <$> l.
Proof.
  induction 1 as [|a v l vs Hav _ IH]; intros Hg; [done|].
  cbn. f_equal.
  - rewrite (Hg a) in Hav by apply list_elem_of_here. by injection Hav.
  - apply IH. intros a' Ha'. apply Hg. by apply list_elem_of_further.
Qed.

Lemma fmap_lookup_total_seq {A B} `{!Inhabited A} (h : A → B) (l : list A) :
  (λ i, h (l !!! i)) <$> seq 0 (length l) = h <$> l.
Proof.
  apply list_eq. intros i. rewrite !list_lookup_fmap.
  destruct (decide (i < length l)%nat) as [Hi|Hi].
  - rewrite lookup_seq_lt by done. cbn.
    destruct (lookup_lt_is_Some_2 l i Hi) as [a Ha]. rewrite Ha. cbn.
    by rewrite (list_lookup_total_correct _ _ _ Ha).
  - rewrite lookup_seq_ge by lia. by rewrite lookup_ge_None_2 by lia.
Qed.

Section UnswitchedMean.
Context {polydata : Type}.
Variable IsInside : polydata → point → bool.
Variable reader : string → polydata.
Variable df : list string.
Variables nx ny nz : Z.
Hypothesis Hnx : 0 ≤ nx.
Hypothesis Hny : 0 ≤ ny.
Hypothesis Hnz : 0 ≤ nz.

Local Abbreviation volume_of :=
  (λ cell, occupancy IsInside (reader (mesh_file cell))
             (Z.to_nat nx) (Z.to_nat ny) (Z.to_nat nz)).

Lemma entry_volume_unswitched i cell :
  df !! i = Some cell →
  entry_volume IsInside reader (λ _, []) df nx ny nz i = Ok (volume_of cell).
Proof.
  intros Hi. unfold entry_volume, get_mesh_polydata. rewrite Hi.
  cbn [of_option]. rewrite !bind_Ok.
  unfold get_binary_mask_from_mesh. by apply rasterize_unswitched.
Qed.

Lemma entry_volumes_unswitched vols :
  Forall2 (λ i v, entry_volume IsInside reader (λ _, []) df nx ny nz i = Ok v)
          (np_arange (length df)) vols →
  vols = volume_of <$> df.
Proof.
  intros Hvols. rewrite <-(fmap_lookup_total_seq volume_of df).
  apply (Forall2_Ok_fmap _ _ _ _ Hvols).
  intros i Hi. apply elem_of_seq in Hi as [_ Hi].
  destruct (lookup_lt_is_Some_2 df i) as [cell Hcell]; [lia|].
  rewrite (list_lookup_total_correct _ _ _ Hcell).
  by apply entry_volume_unswitched.
Qed.

Lemma voxel_sum_occupancy (rows : list string) z y x :
  (z < Z.to_nat nz)%nat → (y < Z.to_nat ny)%nat → (x < Z.to_nat nx)%nat →
  voxel_sum (volume_of <$> rows) z y x =
  255 * enclosing_rows IsInside reader rows (Z.of_nat x, Z.of_nat y, Z.of_nat z).
Proof.
  intros Hz Hy Hx. unfold enclosing_rows.
  induction rows as [|cell rows IH]; [done|].
  rewrite fmap_cons, voxel_sum_cons, IH, get3_occupancy by done.
  cbn [default from_option id]. rewrite filter_cons.
  change (inside_marker IsInside (reader (mesh_file cell)) ?p)
    with (if encloses IsInside reader p cell then 255 else 0).
  destruct (decide _) as [Hin|Hin].
  - rewrite Hin. cbn [length]. lia.
  - apply not_true_is_false in Hin. rewrite Hin. lia.
Qed.
End UnswitchedMean.

(** Without thread switches the mean at a voxel is the number of rows whose
    mesh encloses the grid point, the first row counted twice, times 255,
    reduced modulo 256 and divided by the number of rows. *)
Theorem get_mean_mask_unswitched_mean {polydata : Type}
    (IsInside : polydata → point → bool) (reader : string → polydata)
    (fs fs' : files) (df : list string) (nx ny nz : Z) (mean : mean_volume)
    (z y x : nat) :
  get_mean_mask IsInside reader (λ _, []) fs df (nx, ny, nz) = Ok (fs', mean) →
  (z < Z.to_nat nz)%nat → (y < Z.to_nat ny)%nat → (x < Z.to_nat nx)%nat →
  let p := (Z.of_nat x, Z.of_nat y, Z.of_nat z) in
  ∃ first,
    df !! 0%nat = Some first ∧
    get3 mean z y x =
      Some (Qc_of_Z (uint8 (255 * (Z.b2z (encloses IsInside reader p first) +
                                   enclosing_rows IsInside reader df p)))
              / Qc_of_Z (Z.of_nat (length df)))%Qc.
Proof.
  intros Hrun Hz Hy Hx p.
  destruct (get_mean_mask_inv _ _ _ _ _ _ _ _ _ Hrun) as (Hdf & Hnx & Hny & Hnz).
  destruct (get_mean_mask_total IsInside reader (λ _, []) df nx ny nz Hnx Hny Hnz fs Hdf)
    as (v0 & vols & s & Hv0 & _ & Hvols & _ & Hrun' & _ & _ & Hsum).
  rewrite Hrun' in Hrun. injection Hrun as _ <-.
  destruct df as [|first rest] eqn:Hdfeq; [done|]. exists first. split; [done|].
  rewrite <-Hdfeq in *.
  assert (v0 = occupancy IsInside (reader (mesh_file first))
                 (Z.to_nat nx) (Z.to_nat ny) (Z.to_nat nz)) as ->.
  { unfold first_volume, get_mesh_polydata in Hv0. rewrite Hdfeq in Hv0.
    cbn [lookup list_lookup of_option] in Hv0. rewrite !bind_Ok in Hv0.
    unfold get_binary_mask_from_mesh in Hv0. cbn beta in Hv0.
    rewrite rasterize_unswitched in Hv0 by done. by injection Hv0. }
  apply entry_volumes_unswitched in Hvols; [|done..]. subst vols.
  rewrite get3_np_divide.
  rewrite (Hsum z y x _ (get3_occupancy _ _ _ _ _ _ _ _ Hz Hy Hx)).
  rewrite voxel_sum_occupancy by done. cbn [fmap option_fmap option_map].
  subst p. rewrite Z.mul_add_distr_l.
  replace (255 * Z.b2z (encloses IsInside reader (Z.of_nat x, Z.of_nat y, Z.of_nat z) first))
    with (inside_marker IsInside (reader (mesh_file first))
            (Z.of_nat x, Z.of_nat y, Z.of_nat z)); [done|].
  unfold inside_marker, encloses. by destruct (IsInside _ _).
Qed.

Lemma get_mean_mask_unswitched_mean_witness :
  ∃ first,
    ["b"; "a"; "a"] !! 0%nat = Some first ∧
    ∃ fs' mean,
      get_mean_mask cuboid_inside cuboid_reader (λ _, []) ∅ ["b"; "a"; "a"] (1, 1, 1)
        = Ok (fs', mean) ∧
      get3 mean 0 0 0 =
        Some (Qcdiv
                (Qc_of_Z (uint8 (255 * (Z.b2z (encloses cuboid_inside cuboid_reader
                                                 (0, 0, 0) first) +
                                        enclosing_rows cuboid_inside cuboid_reader
                                          ["b"; "a"; "a"] (0, 0, 0)))))
                (Qc_of_Z 3)).
Proof.
  evaluate (snd <$> get_mean_mask cuboid_inside cuboid_reader (λ _, []) ∅
                      ["b"; "a"; "a"] (1, 1, 1)) as Hrun.
  apply get_mean_mask_saved in Hrun.
  destruct (get_mean_mask_unswitched_mean cuboid_inside cuboid_reader _ _ _ _ _ _ _
              0 0 0 Hrun) as (first & Hfirst & Hmean); [cbn; lia..|].
  exists first. split; [exact Hfirst|]. eexists _, _. split; [exact Hrun|exact Hmean].
Defined.

(** ** Z-rescaling: short rows, repeated calls, spacings that fit *)

Section FixZFurther.
Context {F : Type} `{FloatOps F}.

(** The loop stops with an IndexError at the first row from [i] on that
    has no coordinate of index 2. *)
Lemma fix_z_loop_short (verts : loc) (dz : F) (n : nat) :
  ∀ (i : nat) (σ : gmap loc (list (list F))) (arr : list (list F)),
    σ !! verts = Some arr → (i + n)%nat = length arr →
    Exists (λ vert, length vert < 3)%nat (drop i arr) →
    fix_z_loop n i σ verts dz = Err IndexError.
Proof.
  induction n as [|n IH]; intros i σ arr Hσ Hlen Hshort.
  - rewrite drop_ge in Hshort by lia. by apply Exists_nil in Hshort.
  - destruct (lookup_lt_is_Some_2 arr i) as [vert Hvert]; [lia|].
    rewrite (drop_S arr vert i Hvert) in Hshort.
    cbn [fix_z_loop]. rewrite Hσ. cbn [of_option]. rewrite bind_Ok.
    rewrite Hvert. cbn [of_option]. rewrite bind_Ok.
    destruct (vert !! 2%nat) as [z|] eqn:Hz; [|done].
    cbn [of_option]. rewrite bind_Ok.
    apply Exists_cons in Hshort as [Hv|Hrest].
    { apply lookup_lt_Some in Hz. lia. }
    apply (IH (S i) _ (<[i := <[2%nat := np_imul z dz]> vert]> arr)).
    + apply lookup_insert_eq.
    + rewrite length_insert. lia.
    + by rewrite drop_insert_lt by lia.
Qed.
End FixZFurther.

(** A vertex with fewer than three coordinates makes [fix_z] raise an
    IndexError (at [vert[2] *= dz]), whatever the other vertices are. *)
Theorem fix_z_short_row_raises {F : Type} `{FloatOps F}
    (σ : gmap loc (list (list F))) (verts : loc) (dz imsize q : F)
    (arr : list (list F)) :
  σ !! verts = Some arr →
  py_truediv imsize dz = Ok q →
  Exists (λ vert, length vert < 3)%nat arr →
  fix_z σ verts dz imsize = Err IndexError.
Proof.
  intros Hσ Hq Hshort. unfold fix_z. rewrite Hq, bind_Ok.
  rewrite Hσ. cbn [of_option]. rewrite bind_Ok.
  by rewrite (fix_z_loop_short verts _ (length arr) 0 σ arr Hσ).
Qed.

Lemma fix_z_short_row_raises_witness :
  fix_z {[ 1%positive := [[Qc_of_Z 1; Qc_of_Z 2; Qc_of_Z 3]; [Qc_of_Z 4; Qc_of_Z 5]] ]}
        1%positive (Q2Qc (3 # 10)) 2%Qc = Err IndexError.
Proof.
  apply (fix_z_short_row_raises _ _ _ _ (2 / Q2Qc (3 # 10))%Qc
           [[Qc_of_Z 1; Qc_of_Z 2; Qc_of_Z 3]; [Qc_of_Z 4; Qc_of_Z 5]]).
  - reflexivity.
  - apply Qc_truediv_pos. reflexivity.
  - apply Exists_cons_tl, Exists_cons_hd. cbn. lia.
Defined.

(** [fix_z] works on the array it is given, so a second call on the same
    array rescales the z coordinates that the first call has already
    rescaled: each ends up multiplied by both corrected spacings. *)
Theorem fix_z_twice_scales_twice {F : Type} `{FloatOps F}
    (σ : gmap loc (list (list F))) (verts : loc) (dz1 imsize1 q1 dz2 imsize2 q2 : F)
    (arr : list (list F)) :
  σ !! verts = Some arr →
  Forall (λ vert, 2 < length vert)%nat arr →
  py_truediv imsize1 dz1 = Ok q1 →
  py_truediv imsize2 dz2 = Ok q2 →
  ('(σ1, verts1) ← fix_z σ verts dz1 imsize1; fix_z σ1 verts1 dz2 imsize2) =
  Ok (<[verts := (λ vert, scale_z (corrected_dz imsize2 q2)
                            (scale_z (corrected_dz imsize1 q1) vert)) <$> arr]> σ,
      verts).
Proof.
  intros Hσ Hrows Hq1 Hq2.
  rewrite (fix_z_spec σ verts dz1 imsize1 arr q1 Hσ Hrows Hq1), bind_Ok.
  rewrite (fix_z_spec _ verts dz2 imsize2
             (scale_z (corrected_dz imsize1 q1) <$> arr) q2).
  - by rewrite insert_insert_eq, <-list_fmap_compose.
  - apply lookup_insert_eq.
  - apply Forall_fmap. eapply Forall_impl; [exact Hrows|].
    intros vert Hv. cbn. by rewrite scale_z_length.
  - exact Hq2.
Qed.

Lemma fix_z_twice_scales_twice_witness :
  ('(σ1, verts1) ← fix_z {[ 1%positive := sample_verts ]} 1%positive
                     (Q2Qc (3 # 10)) 2%Qc;
   fix_z σ1 verts1 (Q2Qc (3 # 10)) 2%Qc) =
  Ok (<[1%positive :=
          (λ vert, scale_z (corrected_dz 2%Qc (2 / Q2Qc (3 # 10))%Qc)
                     (scale_z (corrected_dz 2%Qc (2 / Q2Qc (3 # 10))%Qc) vert))
          <$> sample_verts]> {[ 1%positive := sample_verts ]},
      1%positive).
Proof.
  apply (fix_z_twice_scales_twice {[ 1%positive := sample_verts ]} 1%positive).
  - reflexivity.
  - repeat constructor.
  - apply Qc_truediv_pos. reflexivity.
  - apply Qc_truediv_pos. reflexivity.
Defined.

(** *** Exact arithmetic *)

Lemma Qfloor_Qc_of_Z (k : Z) : Qfloor (Qc_of_Z k) = k.
Proof.
  exact (Qfloor_Z k).
Qed.

Lemma Qc_round_of_Z (k : Z) : Qc_round (Qc_of_Z k) = Qc_of_Z k.
Proof.
  unfold Qc_round. rewrite Qfloor_Qc_of_Z.
  unfold Qcminus. rewrite Qcplus_opp_r.
  rewrite decide_True; [done|reflexivity].
Qed.

Lemma Qc_of_Z_ne_0 (k : Z) : k ≠ 0 → Qc_of_Z k ≠ 0%Qc.
Proof. intros Hk Heq. apply Hk. apply Z2Qc_inj. by rewrite Z2Qc_inj_0. Qed.

(** In exact arithmetic, when the extent [imsize] is a whole number [k ≠ 0]
    of slices of thickness [dz], rounding changes nothing: the corrected
    spacing is [dz] itself and every z coordinate is multiplied by [dz]. *)
Theorem fix_z_whole_slices (σ : gmap loc (list (list Qc))) (verts : loc)
    (dz imsize : Qc) (k : Z) (arr : list (list Qc)) :
  σ !! verts = Some arr →
  Forall (λ vert, 2 < length vert)%nat arr →
  dz ≠ 0%Qc → k ≠ 0 → imsize = (Qc_of_Z k * dz)%Qc →
  fix_z σ verts dz imsize = Ok (<[verts := scale_z dz <$> arr]> σ, verts).
Proof.
  intros Hσ Hrows Hdz Hk ->.
  assert (py_truediv (Qc_of_Z k * dz)%Qc dz = Ok (Qc_of_Z k)) as Hq.
  { cbn. rewrite decide_False by done. by rewrite Qcdiv_mult_l. }
  rewrite (fix_z_spec σ verts dz _ arr _ Hσ Hrows Hq).
  replace (corrected_dz (Qc_of_Z k * dz)%Qc (Qc_of_Z k)) with dz; [done|].
  unfold corrected_dz. cbn. rewrite Qc_round_of_Z.
  rewrite Qcmult_comm. rewrite Qcdiv_mult_l; [done|]. by apply Qc_of_Z_ne_0.
Qed.

Lemma fix_z_whole_slices_witness :
  fix_z {[ 1%positive := sample_verts ]} 1%positive (Q2Qc (1 # 4)) 2%Qc =
  Ok (<[1%positive := scale_z (Q2Qc (1 # 4)) <$> sample_verts]>
        {[ 1%positive := sample_verts ]}, 1%positive).
Proof.
  apply (fix_z_whole_slices {[ 1%positive := sample_verts ]} 1%positive
           (Q2Qc (1 # 4)) 2%Qc 8 sample_verts).
  - reflexivity.
  - repeat constructor.
  - done.
  - done.
  - apply (bool_decide_unpack _). vm_compute. exact I.
Defined.

(** ** STL export *)

Section StlExportFacts.
Context {F : Type}.
Variable zero : F.
Variable float32 : F → F.
Variable verts : list (list F).

Lemma assign_row_three (row : list F) :
  length row = 3%nat → assign_row float32 row = Ok (float32 <$> row).
Proof. destruct row as [|a [|b [|c [|d row]]]]; done. Qed.

Lemma face_in_range_inv (f : list nat) :
  face_in_range (length verts) f →
  ∃ k0 k1 k2 rest, f = k0 :: k1 :: k2 :: rest ∧
    (k0 < length verts)%nat ∧ (k1 < length verts)%nat ∧ (k2 < length verts)%nat.
Proof.
  intros [Hlen Hks]. destruct f as [|k0 [|k1 [|k2 rest]]]; cbn in Hlen; try lia.
  cbn in Hks. apply Forall_cons in Hks as [H0 Hks].
  apply Forall_cons in Hks as [H1 Hks]. apply Forall_cons in Hks as [H2 _].
  by exists k0, k1, k2, rest.
Qed.

Lemma face_in_range_dec (n : nat) (f : list nat) :
  Decision (face_in_range n f).
Proof. unfold face_in_range. apply _. Qed.

(** The three assignments of one pass of the inner loop fill triangle
    [i]. *)
Lemma set_corners_in_range (vectors : list (list (list F))) (i : nat)
    (f : list nat) :
  Forall (λ row, length row = 3%nat) verts →
  face_in_range (length verts) f →
  (i < length vectors)%nat →
  Forall (λ tri, length tri = 3%nat) vectors →
  set_corners float32 (np_arange 3) vectors verts i f =
    Ok (<[i := triangle_of float32 verts f]> vectors).
Proof.
  intros Hverts Hf Hi Hvec.
  destruct (face_in_range_inv f Hf) as (k0 & k1 & k2 & rest & -> & H0 & H1 & H2).
  destruct (lookup_lt_is_Some_2 verts k0 H0) as [r0 Hr0].
  destruct (lookup_lt_is_Some_2 verts k1 H1) as [r1 Hr1].
  destruct (lookup_lt_is_Some_2 verts k2 H2) as [r2 Hr2].
  destruct (lookup_lt_is_Some_2 vectors i Hi) as [tri Htri].
  pose proof (Forall_lookup_1 _ _ _ _ Hvec Htri) as Hlen. cbn beta in Hlen.
  destruct tri as [|c0 [|c1 [|c2 [|c3 tri]]]]; try done.
  unfold triangle_of. cbn [take fmap list_fmap].
  rewrite (list_lookup_total_correct _ _ _ Hr0),
    (list_lookup_total_correct _ _ _ Hr1), (list_lookup_total_correct _ _ _ Hr2).
  cbn [np_arange seq set_corners lookup list_lookup].
  cbn [of_option]. rewrite bind_Ok, Hr0. cbn [of_option]. rewrite bind_Ok.
  rewrite assign_row_three, bind_Ok
    by exact (Forall_lookup_1 _ _ _ _ Hverts Hr0).
  cbn [of_option]. rewrite bind_Ok, Hr1. cbn [of_option]. rewrite bind_Ok.
  rewrite assign_row_three, bind_Ok
    by exact (Forall_lookup_1 _ _ _ _ Hverts Hr1).
  cbn [of_option]. rewrite bind_Ok, Hr2. cbn [of_option]. rewrite bind_Ok.
  rewrite assign_row_three, bind_Ok
    by exact (Forall_lookup_1 _ _ _ _ Hverts Hr2).
  f_equal. apply list_eq. intros i'. destruct (decide (i' = i)) as [->|Hne].
  - rewrite !list_lookup_alter_eq, Htri, list_lookup_insert_eq by done. done.
  - by rewrite !list_lookup_alter_ne, list_lookup_insert_ne by done.
Qed.

(** A face that is not in range stops the inner loop with an
    IndexError. *)
Lemma set_corners_out_of_range (vectors : list (list (list F))) (i : nat)
    (f : list nat) :
  Forall (λ row, length row = 3%nat) verts →
  ¬ face_in_range (length verts) f →
  set_corners float32 (np_arange 3) vectors verts i f = Err IndexError.
Proof.
  intros Hverts Hf. cbn [np_arange seq].
  assert (∀ k, ¬ (k < length verts)%nat → verts !! k = None) as Hnone.
  { intros k Hk. apply lookup_ge_None_2. lia. }
  destruct f as [|k0 [|k1 [|k2 rest]]].
  - done.
  - cbn [set_corners lookup list_lookup of_option]. rewrite bind_Ok.
    destruct (decide (k0 < length verts)%nat) as [H0|H0].
    + destruct (lookup_lt_is_Some_2 verts k0 H0) as [r Hr]. rewrite Hr.
      cbn [of_option]. rewrite bind_Ok.
      rewrite assign_row_three, bind_Ok by exact (Forall_lookup_1 _ _ _ _ Hverts Hr).
      done.
    + by rewrite (Hnone k0 H0).
  - cbn [set_corners lookup list_lookup of_option]. rewrite bind_Ok.
    destruct (decide (k0 < length verts)%nat) as [H0|H0];
      [|by rewrite (Hnone k0 H0)].
    destruct (lookup_lt_is_Some_2 verts k0 H0) as [r Hr]. rewrite Hr.
    cbn [of_option]. rewrite bind_Ok.
    rewrite assign_row_three, bind_Ok by exact (Forall_lookup_1 _ _ _ _ Hverts Hr).
    cbn [of_option]. rewrite bind_Ok.
    destruct (decide (k1 < length verts)%nat) as [H1|H1];
      [|by rewrite (Hnone k1 H1)].
    destruct (lookup_lt_is_Some_2 verts k1 H1) as [r1 Hr1]. rewrite Hr1.
    cbn [of_option]. rewrite bind_Ok.
    rewrite assign_row_three, bind_Ok by exact (Forall_lookup_1 _ _ _ _ Hverts Hr1).
    done.
  - cbn [set_corners lookup list_lookup of_option]. rewrite bind_Ok.
    destruct (decide (k0 < length verts)%nat) as [H0|H0];
      [|by rewrite (Hnone k0 H0)].
    destruct (lookup_lt_is_Some_2 verts k0 H0) as [r Hr]. rewrite Hr.
    cbn [of_option]. rewrite bind_Ok.
    rewrite assign_row_three, bind_Ok by exact (Forall_lookup_1 _ _ _ _ Hverts Hr).
    cbn [of_option]. rewrite bind_Ok.
    destruct (decide (k1 < length verts)%nat) as [H1|H1];
      [|by rewrite (Hnone k1 H1)].
    destruct (lookup_lt_is_Some_2 verts k1 H1) as [r1 Hr1]. rewrite Hr1.
    cbn [of_option]. rewrite bind_Ok.
    rewrite assign_row_three, bind_Ok by exact (Forall_lookup_1 _ _ _ _ Hverts Hr1).
    cbn [of_option]. rewrite bind_Ok.
    destruct (decide (k2 < length verts)%nat) as [H2|H2];
      [|by rewrite (Hnone k2 H2)].
    exfalso. apply Hf. split; [cbn; lia|]. cbn. by repeat constructor.
Qed.

Lemma triangle_of_length (f : list nat) :
  (3 ≤ length f)%nat → length (triangle_of float32 verts f) = 3%nat.
Proof. intros Hf. unfold triangle_of. rewrite length_fmap, length_take. lia. Qed.

(** The outer loop, at face [i] with the faces [faces] to go, fills the
    triangles from [i] on and leaves those before [i] as they are. *)
Lemma set_triangles_in_range (faces : list (list nat)) :
  ∀ (i : nat) (vectors : list (list (list F))),
    length vectors = (i + length faces)%nat →
    Forall (λ row, length row = 3%nat) verts →
    Forall (face_in_range (length verts)) faces →
    Forall (λ tri, length tri = 3%nat) vectors →
    set_triangles float32 (zip (seq i (length faces)) faces) vectors verts =
      Ok (take i vectors ++ (triangle_of float32 verts <$> faces)).
Proof.
  induction faces as [|f faces IH]; intros i vectors Hlen Hverts Hfaces Hvec.
  - cbn in *. rewrite take_ge by lia. by rewrite app_nil_r.
  - apply Forall_cons in Hfaces as [Hf Hfaces]. cbn [length] in Hlen.
    cbn [length seq zip zip_with set_triangles].
    rewrite set_corners_in_range, bind_Ok by (done || lia).
    change (zip_with pair (seq (S i) (length faces)) faces)
      with (zip (seq (S i) (length faces)) faces).
    rewrite IH; [|rewrite length_insert; lia|done|done|].
    + rewrite (take_S_r _ _ (triangle_of float32 verts f))
        by (apply list_lookup_insert_eq; lia).
      rewrite take_insert_ge by lia. by rewrite <-app_assoc.
    + apply Forall_insert; [done|]. apply triangle_of_length, Hf.
Qed.

Lemma set_triangles_out_of_range (faces : list (list nat)) :
  ∀ (i : nat) (vectors : list (list (list F))),
    length vectors = (i + length faces)%nat →
    Forall (λ row, length row = 3%nat) verts →
    Exists (λ f, ¬ face_in_range (length verts) f) faces →
    Forall (λ tri, length tri = 3%nat) vectors →
    set_triangles float32 (zip (seq i (length faces)) faces) vectors verts =
      Err IndexError.
Proof.
  induction faces as [|f faces IH]; intros i vectors Hlen Hverts Hfaces Hvec.
  - by apply Exists_nil in Hfaces.
  - cbn [length] in Hlen. cbn [length seq zip zip_with set_triangles].
    destruct (face_in_range_dec (length verts) f) as [Hf|Hf].
    + rewrite set_corners_in_range, bind_Ok by (done || lia).
      apply Exists_cons in Hfaces as [Hbad|Hfaces]; [done|].
      apply IH; [rewrite length_insert; lia|done|done|].
      apply Forall_insert; [done|]. apply triangle_of_length, Hf.
    + by rewrite set_corners_out_of_range.
Qed.

(** Only the first three indices of a face are read. *)
Lemma set_corners_take (vectors : list (list (list F))) (i : nat) (f : list nat) :
  set_corners float32 (np_arange 3) vectors verts i (take 3 f) =
  set_corners float32 (np_arange 3) vectors verts i f.
Proof.
  cbn [np_arange seq set_corners]. by rewrite !lookup_take_lt by lia.
Qed.

Lemma set_triangles_take (faces : list (list nat)) :
  ∀ (i : nat) (vectors : list (list (list F))),
    set_triangles float32 (zip (seq i (length faces)) (take 3 <$> faces))
      vectors verts =
    set_triangles float32 (zip (seq i (length faces)) faces) vectors verts.
Proof.
  induction faces as [|f faces IH]; intros i vectors; [done|].
  cbn [length seq fmap list_fmap zip zip_with set_triangles].
  rewrite set_corners_take.
  destruct (set_corners float32 (np_arange 3) vectors verts i f) as [vs|e];
    [|done].
  rewrite !bind_Ok. apply IH.
Qed.
End StlExportFacts.

(** With vertices of three coordinates and faces whose first three indices
    point into the vertex array, [save_mesh_as_stl] writes under
    [fname + '.stl'] one triangle per face, in the order of the faces: its
    corners are the vertices at the first three indices of the face, cast to
    float32.  No triangle is left at its initial zeros and no other file is
    touched. *)
Theorem save_mesh_as_stl_writes_triangles {F : Type} (zero : F) (float32 : F → F)
    (fs : gmap string (list (list (list F)))) (verts : list (list F))
    (faces : list (list nat)) (fname : string) :
  Forall (λ row, length row = 3%nat) verts →
  Forall (face_in_range (length verts)) faces →
  save_mesh_as_stl zero float32 fs verts faces fname =
    Ok (<[fname +:+ ".stl" := triangle_of float32 verts <$> faces]> fs).
Proof.
  intros Hverts Hfaces. unfold save_mesh_as_stl, enumerate, np_arange.
  rewrite (set_triangles_in_range float32 verts faces 0); [done|..|done|done|].
  - unfold zero_vectors. by rewrite length_replicate.
  - unfold zero_vectors. apply Forall_replicate. done.
Qed.

Lemma save_mesh_as_stl_writes_triangles_witness :
  save_mesh_as_stl 0%Qc (λ v, v) ∅ corner_triangle [[0; 1; 2]; [2; 1; 0; 1]]%nat "nuc" =
    Ok (<["nuc" +:+ ".stl" :=
            triangle_of (λ v, v) corner_triangle <$> [[0; 1; 2]; [2; 1; 0; 1]]%nat]> ∅).
Proof.
  apply save_mesh_as_stl_writes_triangles.
  - repeat constructor.
  - repeat constructor; cbn; lia.
Defined.

(** A face with fewer than three indices, or with one of its first three
    indices beyond the vertex array, makes [save_mesh_as_stl] raise an
    IndexError; nothing is written. *)
Theorem save_mesh_as_stl_out_of_range_raises {F : Type} (zero : F) (float32 : F → F)
    (fs : gmap string (list (list (list F)))) (verts : list (list F))
    (faces : list (list nat)) (fname : string) :
  Forall (λ row, length row = 3%nat) verts →
  Exists (λ f, ¬ face_in_range (length verts) f) faces →
  save_mesh_as_stl zero float32 fs verts faces fname = Err IndexError.
Proof.
  intros Hverts Hfaces. unfold save_mesh_as_stl, enumerate, np_arange.
  rewrite (set_triangles_out_of_range float32 verts faces 0); [done|..|done|done|].
  - unfold zero_vectors. by rewrite length_replicate.
  - unfold zero_vectors. apply Forall_replicate. done.
Qed.

Lemma save_mesh_as_stl_out_of_range_raises_witness :
  save_mesh_as_stl 0%Qc (λ v, v) ∅ corner_triangle [[0; 1; 2]; [0; 1; 3]]%nat "nuc" =
    Err IndexError.
Proof.
  apply save_mesh_as_stl_out_of_range_raises.
  - repeat constructor.
  - apply Exists_cons_tl, Exists_cons_hd. intros [_ Hks]. cbn in Hks.
    apply Forall_cons in Hks as [_ Hks]. apply Forall_cons in Hks as [_ Hks].
    apply Forall_cons in Hks as [Hk _]. lia.
Defined.

(** [save_mesh_as_stl] reads the first three indices of each face only: a
    face with more indices (a quadrilateral, say) is written as the triangle
    of its first three, and fails or succeeds as that triangle does. *)
Theorem save_mesh_as_stl_reads_three_indices {F : Type} (zero : F) (float32 : F → F)
    (fs : gmap string (list (list (list F)))) (verts : list (list F))
    (faces : list (list nat)) (fname : string) :
  save_mesh_as_stl zero float32 fs verts (take 3 <$> faces) fname =
  save_mesh_as_stl zero float32 fs verts faces fname.
Proof.
  unfold save_mesh_as_stl, enumerate, np_arange. rewrite length_fmap.
  by rewrite set_triangles_take.
Qed.

(** Vertices that are not rows of three coordinates or of one (2-D points,
    say) cannot be assigned to a corner: the first face whose first index
    points at such a row makes [save_mesh_as_stl] raise a ValueError. *)
Theorem save_mesh_as_stl_wrong_width_raises {F : Type} (zero : F) (float32 : F → F)
    (fs : gmap string (list (list (list F)))) (verts : list (list F))
    (f : list nat) (faces : list (list nat)) (fname : string) (k : nat)
    (row : list F) :
  f !! 0%nat = Some k → verts !! k = Some row →
  length row ≠ 1%nat → length row ≠ 3%nat →
  save_mesh_as_stl zero float32 fs verts (f :: faces) fname = Err ValueError.
Proof.
  intros Hk Hrow H1 H3. unfold save_mesh_as_stl, enumerate, np_arange.
  cbn [length seq zip zip_with set_triangles]. unfold np_arange.
  cbn [seq set_corners]. rewrite Hk. cbn [of_option]. rewrite bind_Ok, Hrow. cbn [of_option].
  rewrite bind_Ok.
  by destruct row as [|a [|b [|c [|d row]]]].
Qed.

Lemma save_mesh_as_stl_wrong_width_raises_witness :
  save_mesh_as_stl 0%Qc (λ v, v) ∅ [[Qc_of_Z 1; Qc_of_Z 2]] [[0; 0; 0]%nat] "nuc" =
    Err ValueError.
Proof.
  apply (save_mesh_as_stl_wrong_width_raises _ _ _ _ _ _ _ 0%nat
           [Qc_of_Z 1; Qc_of_Z 2]).
  - reflexivity.
  - reflexivity.
  - cbn. lia.
  - cbn. lia.
Defined.

(** ** Under every schedule, markers stay in enclosed columns *)

Lemma get3_set3_inv (m : ndarray3) z y x v z' y' x' w :
  get3 (set3 m z y x v) z' y' x' = Some w →
  (z' = z ∧ y' = y ∧ x' = x ∧ w = v) ∨ get3 m z' y' x' = Some w.
Proof.
  intros Hget. destruct (decide ((z, y, x) = (z', y', x'))) as [[= <- <- <-]|Hne].
  - left. unfold get3, set3 in Hget. rewrite list_lookup_alter_eq in Hget.
    destruct (m !! z) as [pl|]; cbn in Hget; [|done].
    rewrite list_lookup_alter_eq in Hget.
    destruct (pl !! y) as [row|]; cbn in Hget; [|done].
    apply list_lookup_insert_Some in Hget as [(_ & <- & _)|[Hne _]]; done.
  - right. by rewrite get3_set3_ne in Hget.
Qed.

Lemma scatter_inv (m : ndarray3) z y x vals z' y' x' w :
  get3 (scatter m z y x vals) z' y' x' = Some w →
  get3 m z' y' x' = Some w ∨
  (z' = z ∧ ∃ k, y !! k = Some y' ∧ x !! k = Some x' ∧ vals !! k = Some w).
Proof.
  unfold scatter.
  assert (∀ (l : list (nat * nat * Z)) (m : ndarray3),
            get3 (foldl (λ acc '(yk, xk, v), set3 acc z yk xk v) m l) z' y' x'
              = Some w →
            get3 m z' y' x' = Some w ∨
            (z' = z ∧ ∃ k, l !! k = Some (y', x', w))) as Hfold.
  { induction l as [|[[yk xk] v] l IH]; intros m0 Hget; [by left|].
    cbn [foldl] in Hget. apply IH in Hget as [Hget|(Hz & k & Hk)].
    - apply get3_set3_inv in Hget as [(-> & -> & -> & ->)|Hget]; [|by left].
      right. split; [done|]. by exists 0%nat.
    - right. split; [done|]. by exists (S k). }
  intros Hget. apply Hfold in Hget as [Hget|(Hz & k & Hk)]; [by left|].
  right. split; [done|]. exists k.
  apply lookup_zip_with_Some in Hk as (yx & v & Heq & Hyx & Hv).
  apply lookup_zip_with_Some in Hyx as (yk & xk & -> & Hyk & Hxk).
  by injection Heq as <- <- <-.
Qed.

Section PoolFootprint.
Context {polydata : Type}.
Variable IsInside : polydata → point → bool.
Variables (surface : polydata) (x y : list nat) (n_verts nz : nat).

Local Abbreviation Sfp := (shared_fp IsInside surface x y n_verts nz).
Local Abbreviation Efp := (enc_fp IsInside surface x y n_verts nz).
Local Abbreviation Cfp := (pc_fp IsInside surface x y n_verts nz).
Local Abbreviation Pfp := (pool_fp IsInside surface x y n_verts nz).

Lemma for_range_fp i body after :
  (∀ j, (j < n_verts)%nat → Cfp (body j)) → Cfp after →
  Cfp (for_range n_verts i body after).
Proof.
  intros Hb Ha. unfold for_range.
  destruct (Nat.ltb_spec i n_verts) as [Hi|Hi]; [by apply Hb|done].
Qed.

Lemma set_point_fp z s i : (z < nz)%nat → Sfp s → Sfp (set_point x y z s i).
Proof.
  intros Hz (Hlen & Hpts & Hins & Hmask).
  split; [|split; [|split; [exact Hins|exact Hmask]]].
  - cbn [xypts set_point]. by rewrite length_insert.
  - intros j pt. cbn [xypts set_point]. intros Hj.
    apply list_lookup_insert_Some in Hj as [(-> & <- & _)|[_ Hj]].
    + by exists z.
    + by apply Hpts.
Qed.

(** What the filter reports as inside is a grid point of some plane. *)
Lemma enclosed_fp s : Sfp s → Efp (enclosed IsInside surface s).
Proof.
  intros (Hlen & Hpts & _ & _). split.
  - unfold enclosed. by rewrite length_fmap.
  - intros j Hj. unfold enclosed in Hj. rewrite list_lookup_fmap in Hj.
    destruct (xypts s !! j) as [pt|] eqn:Hpt; [|done].
    cbn in Hj. injection Hj as Hin.
    destruct (Hpts j pt Hpt) as (z' & Hz' & ->). by exists z'.
Qed.

Lemma set_inside_fp enc s i :
  Efp enc → (i < n_verts)%nat → Sfp s → Sfp (set_inside enc s i).
Proof.
  intros (Hlenc & Henc) Hi (Hlen & Hpts & Hins & Hmask).
  split; [exact Hlen|split; [exact Hpts|split; [|exact Hmask]]].
  intros j v. cbn [vert_is_inside set_inside]. intros Hj Hv.
  apply list_lookup_insert_Some in Hj as [(-> & <- & _)|[_ Hj]].
  - apply Henc. destruct (lookup_lt_is_Some_2 enc j) as [b Hb]; [lia|].
    rewrite (list_lookup_total_correct _ _ _ Hb) in Hv. by destruct b.
  - by apply (Hins j v).
Qed.

Lemma scaled_fp s : Sfp s → Cfp (PStore (scaled s)).
Proof.
  intros (_ & _ & Hins & _) j v Hj Hv. unfold scaled in Hj.
  rewrite list_lookup_fmap in Hj.
  destruct (vert_is_inside s !! j) as [v0|] eqn:Hv0; [|done].
  cbn in Hj. injection Hj as <-. apply (Hins j v0 Hv0).
  by intros ->.
Qed.

Lemma store_fp z tmp s : Cfp (PStore tmp) → Sfp s → Sfp (store x y z tmp s).
Proof.
  intros Htmp (Hlen & Hpts & Hins & Hmask).
  split; [exact Hlen|split; [exact Hpts|split; [exact Hins|]]].
  intros z' yk xk v. cbn [mask store]. intros Hget Hv.
  apply scatter_inv in Hget as [Hget|(_ & k & Hy & Hx & Hk)].
  - by apply (Hmask z' yk xk v).
  - rewrite <-(list_lookup_total_correct _ _ _ Hy),
      <-(list_lookup_total_correct _ _ _ Hx).
    by apply (Htmp k v).
Qed.

Lemma foldl_set_point_fp z s range :
  (z < nz)%nat → Sfp s → Sfp (foldl (set_point x y z) s range).
Proof.
  intros Hz. revert s. induction range as [|i range IH]; intros s Hs; [done|].
  cbn [foldl]. by apply IH, set_point_fp.
Qed.

Lemma foldl_set_inside_fp enc s range :
  Efp enc → Forall (λ i, (i < n_verts)%nat) range → Sfp s →
  Sfp (foldl (set_inside enc) s range).
Proof.
  intros Henc Hrange. revert s.
  induction Hrange as [|i range Hi _ IH]; intros s Hs; [done|].
  cbn [foldl]. by apply IH, set_inside_fp.
Qed.

Lemma rest_of_range i :
  (i < n_verts)%nat →
  Forall (λ j, (j < n_verts)%nat) (i :: seq (S i) (n_verts - S i)).
Proof.
  intros Hi. apply Forall_cons. split; [done|].
  apply Forall_seq. intros j Hj. lia.
Qed.

Lemma whole_range : Forall (λ j, (j < n_verts)%nat) (np_arange n_verts).
Proof. apply Forall_seq. intros j Hj. lia. Qed.

Lemma act_fp z c s :
  (z < nz)%nat → Sfp s → Cfp c →
  Sfp (act IsInside surface x y n_verts z c s).1 ∧
  match (act IsInside surface x y n_verts z c s).2 with
  | Some c' => Cfp c'
  | None => True
  end.
Proof.
  intros Hz Hs Hc. destruct c as [i| |enc i| |tmp]; cbn [act fst snd].
  - split; [by apply set_point_fp|]. by apply for_range_fp.
  - split; [done|]. apply for_range_fp; [|done].
    intros j Hj. split; [done|]. by apply enclosed_fp.
  - destruct Hc as [Hi Henc]. split; [by apply set_inside_fp|].
    apply for_range_fp; [|done]. intros j Hj. by split.
  - split; [done|]. by apply scaled_fp.
  - split; [|done]. by apply store_fp.
Qed.

Lemma finish_call_fp z c s :
  (z < nz)%nat → Sfp s → Cfp c →
  Sfp (finish_call IsInside surface x y n_verts z c s).
Proof.
  intros Hz Hs Hc.
  assert (∀ s, Sfp s → Sfp (store x y z (scaled s) s)) as Hscale.
  { intros s' Hs'. apply store_fp; [|done]. by apply scaled_fp. }
  assert (∀ enc range s, Efp enc →
            Forall (λ i, (i < n_verts)%nat) range → Sfp s →
            Sfp (store x y z (scaled (foldl (set_inside enc) s range))
                   (foldl (set_inside enc) s range))) as Hinside.
  { intros enc range s' Henc Hrange Hs'. by apply Hscale, foldl_set_inside_fp. }
  destruct c as [i| |enc i| |tmp]; cbn [finish_call].
  - apply Hinside; [apply enclosed_fp|apply whole_range|];
      by apply foldl_set_point_fp.
  - apply Hinside; [by apply enclosed_fp|apply whole_range|done].
  - destruct Hc as [Hi Henc]. apply Hinside; [done|by apply rest_of_range|done].
  - by apply Hscale.
  - by apply store_fp.
Qed.

Lemma ProcessThisPlane_fp z s :
  (z < nz)%nat → Sfp s → Sfp (ProcessThisPlane IsInside surface x y n_verts z s).
Proof.
  intros Hz Hs. unfold ProcessThisPlane.
  assert (Sfp (foldl (set_point x y z) s (np_arange n_verts))) as Hpts.
  { by apply foldl_set_point_fp. }
  assert (Sfp (foldl (set_inside (enclosed IsInside surface
                                    (foldl (set_point x y z) s (np_arange n_verts))))
                 (foldl (set_point x y z) s (np_arange n_verts))
                 (np_arange n_verts))) as Hins.
  { apply foldl_set_inside_fp; [by apply enclosed_fp|apply whole_range|done]. }
  apply store_fp; [|done]. by apply scaled_fp.
Qed.

Lemma step_worker_fp p w :
  Pfp p → Pfp (step_worker IsInside surface x y n_verts p w).
Proof.
  intros Hp. pose proof Hp as (Hs & Hpend & Hw). unfold step_worker.
  destruct (workers p !! w) as [[[z c]|]|] eqn:Hlook; [| |exact Hp].
  - destruct (Forall_lookup_1 _ _ _ _ Hw Hlook) as [Hz Hc].
    pose proof (act_fp z c (sh p) Hz Hs Hc) as [Hs' Hc'].
    destruct (act IsInside surface x y n_verts z c (sh p)) as [s' c'].
    split; [done|]. split; [done|]. cbn [workers].
    apply Forall_insert; [done|]. by destruct c'.
  - destruct (pending p) as [|z rest]; [exact Hp|].
    apply Forall_cons in Hpend as [Hz Hrest].
    split; [done|]. split; [done|]. cbn [workers].
    apply Forall_insert; [done|]. split; [done|]. by apply for_range_fp.
Qed.

Lemma drain_fp p : Pfp p → Sfp (drain IsInside surface x y n_verts p).
Proof.
  intros (Hs & Hpend & Hw). unfold drain.
  assert (Sfp (foldl (λ s o, match o with
                             | Some (z, c) =>
                                 finish_call IsInside surface x y n_verts z c s
                             | None => s
                             end) (sh p) (workers p))) as Hs'.
  { revert Hs. generalize (sh p) as s.
    induction Hw as [|o ws Ho _ IH]; intros s Hs; [done|].
    cbn [foldl]. apply IH. destruct o as [[z c]|]; [|done].
    destruct Ho as [Hz Hc]. by apply finish_call_fp. }
  revert Hs'. generalize (foldl (λ s o, match o with
                             | Some (z, c) =>
                                 finish_call IsInside surface x y n_verts z c s
                             | None => s
                             end) (sh p) (workers p)) as s.
  induction Hpend as [|z zs Hz _ IH]; intros s Hs'; [done|].
  cbn [foldl]. apply IH. by apply ProcessThisPlane_fp.
Qed.

Lemma Parallel_fp n_jobs sched s :
  Sfp s → Sfp (Parallel IsInside surface x y n_verts n_jobs sched s nz).
Proof.
  intros Hs. unfold Parallel. apply drain_fp.
  set (p0 := Pool s (np_arange nz) (replicate n_jobs None)).
  assert (Pfp p0) as Hp0.
  { split; [done|]. split.
    - apply Forall_seq. intros z Hz. lia.
    - by apply Forall_replicate. }
  revert Hp0. generalize p0 as p. clear p0.
  induction sched as [|w sched IH]; intros p Hp; [done|].
  cbn [foldl]. apply IH. by apply step_worker_fp.
Qed.
End PoolFootprint.

Lemma get3_np_zeros nz ny nx z y x v :
  get3 (np_zeros nz ny nx) z y x = Some v → v = 0.
Proof.
  unfold get3, np_zeros. intros Hget.
  destruct (replicate nz _ !! z) as [pl|] eqn:Hpl; [|done].
  apply lookup_replicate in Hpl as [-> _].
  destruct (replicate ny _ !! y) as [row|] eqn:Hrow; [|done].
  apply lookup_replicate in Hrow as [-> _].
  by apply lookup_replicate in Hget as [-> _].
Qed.

Lemma rasterize_with_pool_footprint {polydata : Type}
    (IsInside : polydata → point → bool) (n_jobs : nat) (sched : list nat)
    (surface : polydata) (nx ny nz : Z) (m : ndarray3) (z y x : nat) (v : Z) :
  rasterize_with_pool IsInside n_jobs sched surface (nx, ny, nz) = Ok m →
  get3 m z y x = Some v → v ≠ 0 →
  column_enclosed IsInside surface (Z.to_nat nz) x y.
Proof.
  intros Hrun Hget Hv.
  destruct (rasterize_with_pool_inv IsInside _ _ _ _ _ _ _ Hrun) as (Hnx & Hny & Hnz).
  destruct (rasterize_with_pool_ok IsInside n_jobs sched surface nx ny nz)
    as (m' & Hrun' & Hshape & _); [done..|].
  rewrite Hrun in Hrun'. injection Hrun' as <-.
  assert (z < Z.to_nat nz)%nat as Hz.
  { apply (get3_is_Some m _ _ _ z y x Hshape). by exists v. }
  revert Hrun. unfold rasterize_with_pool.
  rewrite bool_decide_eq_false_2 by lia. cbn zeta. intros [= <-].
  match type of Hget with
  | context [Parallel _ ?sf ?xs ?ys ?n ?j ?sc ?s0 ?k] =>
      pose proof (Parallel_fp IsInside sf xs ys n k j sc s0) as Hfp
  end.
  destruct Hfp as (_ & _ & _ & Hmask); [|by apply (Hmask z y x v)].
  split; [|split; [|split]].
  - cbn [xypts]. unfold np_arange.
    rewrite (foldl_insert_all _ _ _ (length_replicate _ _)).
    by rewrite length_fmap, length_seq.
  - intros i pt. cbn [xypts]. unfold np_arange.
    rewrite (foldl_insert_all _ _ _ (length_replicate _ _)).
    rewrite list_lookup_fmap. intros Hpt.
    destruct (seq 0 _ !! i) as [i'|] eqn:Hi; [|done].
    apply lookup_seq in Hi as [-> _]. cbn in Hpt. injection Hpt as <-.
    exists 0%nat. split; [lia|done].
  - intros i v0. cbn [vert_is_inside]. intros Hv0 Hne.
    by apply lookup_replicate in Hv0 as [-> _].
  - intros z0 y0 x0 v0. cbn [mask]. intros Hv0 Hne.
    by apply get3_np_zeros in Hv0.
Qed.

(** Whatever the threads do, a marker is written only in the column of a
    grid point that the surface encloses in some plane: if the voxel
    [z][y][x] of the returned volume is not 0, the surface encloses
    [(x, y, z')] for a plane [z'] of the volume. *)
Theorem get_binary_mask_from_mesh_marks_only_enclosed_columns {polydata : Type}
    (IsInside : polydata → point → bool) (sched : list nat)
    (surface : polydata) (nx ny nz : Z) (m : ndarray3) (z y x : nat) (v : Z) :
  get_binary_mask_from_mesh IsInside sched surface (nx, ny, nz) = Ok m →
  get3 m z y x = Some v → v ≠ 0 →
  ∃ z', 0 ≤ z' < nz ∧ IsInside surface (Z.of_nat x, Z.of_nat y, z') = true.
Proof.
  intros Hrun Hget Hv.
  destruct (rasterize_with_pool_footprint IsInside 2 sched surface nx ny nz
              m z y x v Hrun Hget Hv) as (z' & Hz' & Hin).
  exists (Z.of_nat z'). split; [lia|done].
Qed.

Lemma get_binary_mask_from_mesh_marks_only_enclosed_columns_witness :
  ∃ m, get_binary_mask_from_mesh cuboid_inside [0; 1; 1; 0; 1; 1; 1; 1]%nat
         unit_cuboid (1, 1, 2) = Ok m ∧
       get3 m 1 0 0 = Some 255 ∧
       cuboid_inside unit_cuboid (0, 0, 1) = false ∧
       ∃ z', 0 ≤ z' < 2 ∧
             cuboid_inside unit_cuboid (Z.of_nat 0, Z.of_nat 0, z') = true.
Proof.
  evaluate (get_binary_mask_from_mesh cuboid_inside [0; 1; 1; 0; 1; 1; 1; 1]%nat
              unit_cuboid (1, 1, 2)) as Hrun.
  eexists. split; [exact Hrun|]. split; [reflexivity|]. split; [reflexivity|].
  apply (get_binary_mask_from_mesh_marks_only_enclosed_columns cuboid_inside
           _ _ _ _ _ _ 1%nat 0%nat 0%nat 255 Hrun); [reflexivity|lia].
Defined.

(** ** Visualiser *)

Lemma bind_Returns {A B} (f : A → outcome B) (a : A) : Returns a ≫= f = f a.
Proof. reflexivity. Qed.

Lemma bind_Raises {A B} (f : A → outcome B) (e : pyexc) :
  Raises e ≫= f = Raises e.
Proof. reflexivity. Qed.

Lemma py_int_of_Z (n : Z) : 0 ≤ n → py_int (Qc_of_Z n) = n.
Proof.
  intros Hn. unfold py_int. rewrite decide_True.
  - apply Qfloor_Qc_of_Z.
  - rewrite <-Z2Qc_inj_0. exact (proj1 (Z2Qc_inj_le 0 n) Hn).
Qed.

Lemma np_linspace_frames :
  np_linspace 0 (Qc_of_Z 360) 25 = frame_azimuth <$> seq 0 25.
Proof. apply (bool_decide_unpack _). vm_compute. exact I. Qed.

Section VisualiserFacts.
Context {F : Type} `{FloatOps F} {image : Type}.
Variable marching_cubes_lewiner :
  mean_volume → pyarg → result (list (list F) * list (list nat) * list (list F) * list F).
Variable plot_trisurf :
  option Qc → list F → list F → list (list nat) → list F → result image.
Variable globals : gmap string F.
Variable mask : mean_volume.

Local Abbreviation Figure := (nuc_figure marching_cubes_lewiner plot_trisurf).
Local Abbreviation Plot := (plot_nuc_mask marching_cubes_lewiner plot_trisurf).
Local Abbreviation Loop := (make_nuc_video_loop marching_cubes_lewiner plot_trisurf).
Local Abbreviation Video := (make_nuc_video marching_cubes_lewiner plot_trisurf).

(** The columns of the rescaled vertices. *)
Lemma unpack_columns_scaled (d : F) (verts : list (list F)) :
  Forall (λ vert, length vert = 3%nat) verts →
  unpack_columns (scale_z d <$> verts) =
    Ok (column 0 verts, column 1 verts, (λ c, np_imul c d) <$> column 2 verts).
Proof.
  intros Hverts. unfold unpack_columns.
  assert (∃ rows,
            mapM (λ vert : list F, match vert with
                                   | [a; b; c] => Ok (a, b, c)
                                   | _ => Err ValueError
                                   end) (scale_z d <$> verts) = Ok rows ∧
            rows.*1.*1 = column 0 verts ∧ rows.*1.*2 = column 1 verts ∧
            rows.*2 = (λ c, np_imul c d) <$> column 2 verts)
    as (rows & Hrows & H0 & H1 & H2);
    [|by rewrite Hrows, bind_Ok, H0, H1, H2].
  induction Hverts as [|vert verts Hvert _ (rows & Hrows & Hc0 & Hc1 & Hc2)].
  - by exists [].
  - destruct vert as [|a [|b [|c [|c' vert]]]]; try done.
    exists ((a, b, np_imul c d) :: rows).
    rewrite fmap_cons. cbn [mapM].
    change (scale_z d [a; b; c]) with [a; b; np_imul c d]. cbv beta iota.
    rewrite bind_Ok, Hrows, bind_Ok. split; [done|].
    unfold column in *. cbn. by rewrite Hc0, Hc1, Hc2.
Qed.

(** With both globals defined the figure is drawn from the vertices of
    marching cubes with z rescaled. *)
Lemma nuc_figure_rescaled az verts faces normals values dz imsize q :
  marching_cubes_lewiner mask (PyInt 1) = Ok (verts, faces, normals, values) →
  Forall (λ vert, length vert = 3%nat) verts →
  globals !! "dz" = Some dz → globals !! "imsize" = Some imsize →
  py_truediv imsize dz = Ok q →
  Figure globals mask az =
    lift (plot_trisurf az (column 0 verts) (column 1 verts) faces
            ((λ c, np_imul c (corrected_dz imsize q)) <$> column 2 verts)).
Proof.
  intros Hmc Hverts Hdz Himsize Hq. unfold nuc_figure.
  rewrite Hmc. cbn [lift]. rewrite bind_Returns.
  unfold global. rewrite Hdz, bind_Returns, Himsize, bind_Returns.
  rewrite (fix_z_spec _ _ _ _ verts q); [|apply lookup_singleton_eq| |done].
  - cbn [lift]. rewrite bind_Returns, lookup_insert_eq. cbn [of_option lift].
    rewrite bind_Returns, unpack_columns_scaled by done.
    cbn [lift]. by rewrite bind_Returns.
  - eapply Forall_impl; [exact Hverts|]. intros vert Hvert.
    cbn beta in Hvert. cbn beta. lia.
Qed.

(** Without one of the globals no figure is drawn. *)
Lemma nuc_figure_undefined_global az :
  globals !! "dz" = None ∨ globals !! "imsize" = None →
  Figure globals mask az =
    Raises match marching_cubes_lewiner mask (PyInt 1) with
           | Err e => Exc e
           | Ok _ =>
               NameError match globals !! "dz" with
                         | Some _ => "imsize"
                         | None => "dz"
                         end
           end.
Proof.
  intros Hundef. unfold nuc_figure.
  destruct (marching_cubes_lewiner mask (PyInt 1)) as [[[[verts faces] ns] vals]|e];
    [|done].
  cbn [lift]. rewrite bind_Returns. unfold global.
  destruct (globals !! "dz") as [dz|]; [|done].
  rewrite bind_Returns. destruct Hundef as [?| ->]; done.
Qed.

Lemma plot_nuc_mask_Some_inv fs title az fs' :
  Plot globals fs mask (Some title) az = Returns fs' →
  ∃ fig, Figure globals mask az = Returns fig ∧ fs' = <[title := Png fig]> fs.
Proof.
  unfold plot_nuc_mask. destruct (Figure globals mask az) as [fig|e]; [|done].
  rewrite bind_Returns. intros [= <-]. by exists fig.
Qed.

(** One pass of the loop per azimuth: the figure is saved, read back and
    removed again. *)
Lemma make_nuc_video_loop_spec (azs : list Qc) :
  ∀ fs filename images fs' filename' images',
    Loop azs globals fs mask filename images = Returns (fs', filename', images') →
    ∃ figs,
      Forall2 (λ az fig, Figure globals mask (Some az) = Returns fig) azs figs ∧
      fs' = foldl (λ fs az, delete ("az_" +:+ pretty (py_int az) +:+ ".png") fs)
                  fs azs ∧
      filename' = foldl (λ _ az, "az_" +:+ pretty (py_int az) +:+ ".png")
                        filename azs ∧
      images' = images ++ figs.
Proof.
  induction azs as [|i azs IH]; intros fs filename images fs' filename' images'.
  - cbn [make_nuc_video_loop]. intros [= <- <- <-]. exists [].
    by rewrite app_nil_r.
  - cbn [make_nuc_video_loop]. cbn zeta.
    destruct (Plot globals fs mask (Some ("az_" +:+ pretty (py_int i) +:+ ".png"))
                (Some i)) as [fs1|e] eqn:Hplot; [|done].
    apply plot_nuc_mask_Some_inv in Hplot as (fig & Hfig & ->).
    rewrite bind_Returns. unfold imread, os_remove.
    rewrite lookup_insert_eq, bind_Returns, bind_Returns, delete_insert_eq.
    intros Hloop. apply IH in Hloop as (figs & Hfigs & -> & -> & ->).
    exists (fig :: figs). split; [by constructor|].
    by rewrite <-app_assoc.
Qed.

Lemma delete_frames (l : list nat) :
  ∀ fs : gmap string (file_content image),
    foldl (λ fs az, delete ("az_" +:+ pretty (py_int az) +:+ ".png") fs) fs
          (frame_azimuth <$> l) =
    foldl (λ fs k, delete (frame_name k) fs) fs l.
Proof.
  induction l as [|k l IH]; intros fs; [done|].
  rewrite fmap_cons. cbn [foldl]. rewrite IH. unfold frame_azimuth at 1.
  by rewrite py_int_of_Z by lia.
Qed.
End VisualiserFacts.

(** With the globals [dz] and [imsize] of the module defined, [plot_nuc_mask]
    draws the surface that marching cubes finds in the mask with its z
    coordinates multiplied by the corrected spacing (x and y untouched), and
    saves the figure under [title] when a title is given; without a title
    no file is written. *)
Theorem plot_nuc_mask_saves_rescaled_surface {F : Type} `{FloatOps F} {image : Type}
    (marching_cubes_lewiner :
       mean_volume → pyarg → result (list (list F) * list (list nat) * list (list F) * list F))
    (plot_trisurf :
       option Qc → list F → list F → list (list nat) → list F → result image)
    (globals : gmap string F) (fs : gmap string (file_content image))
    (mask : mean_volume) (title : option string) (az : option Qc)
    (verts : list (list F)) (faces : list (list nat)) (normals : list (list F))
    (values : list F) (dz imsize q : F) :
  marching_cubes_lewiner mask (PyInt 1) = Ok (verts, faces, normals, values) →
  Forall (λ vert, length vert = 3%nat) verts →
  globals !! "dz" = Some dz → globals !! "imsize" = Some imsize →
  py_truediv imsize dz = Ok q →
  plot_nuc_mask marching_cubes_lewiner plot_trisurf globals fs mask title az =
    match plot_trisurf az (column 0 verts) (column 1 verts) faces
            ((λ c, np_imul c (corrected_dz imsize q)) <$> column 2 verts) with
    | Ok fig => Returns match title with
                        | Some title => <[title := Png fig]> fs
                        | None => fs
                        end
    | Err e => Raises (Exc e)
    end.
Proof.
  intros Hmc Hverts Hdz Himsize Hq. unfold plot_nuc_mask.
  rewrite (nuc_figure_rescaled _ _ _ _ az _ _ _ _ _ _ _ Hmc Hverts Hdz Himsize Hq).
  destruct (plot_trisurf az _ _ _ _) as [fig|e]; [|done].
  cbn [lift]. rewrite bind_Returns. by destruct title.
Qed.

Lemma plot_nuc_mask_saves_rescaled_surface_witness :
  plot_nuc_mask corner_cubes (λ az x y faces z, Ok (az, z))
    {[ "dz" := Q2Qc (1 # 4); "imsize" := 2%Qc ]} ∅ [] (Some "nuc.png") None =
  match Ok (None, (λ c, np_imul c (corrected_dz 2%Qc (2 / Q2Qc (1 # 4))%Qc)) <$>
                    column 2 corner_triangle) with
  | Ok fig => Returns (<["nuc.png" := Png fig]> ∅)
  | Err e => Raises (Exc e)
  end.
Proof.
  apply (plot_nuc_mask_saves_rescaled_surface corner_cubes
           (λ az x y faces z, Ok (az, z)) _ ∅ [] (Some "nuc.png") None
           corner_triangle [[0; 1; 2]%nat] [] [] (Q2Qc (1 # 4)) 2%Qc).
  - reflexivity.
  - repeat constructor.
  - vm_compute. reflexivity.
  - vm_compute. reflexivity.
  - apply Qc_truediv_pos. reflexivity.
Defined.

(** When the module global [dz] or [imsize] is not defined (the module
    defines neither), no call of [plot_nuc_mask] or [make_nuc_video]
    returns: either marching cubes raises, or the call ends in a NameError
    for the first of the two names that is missing, and no file is
    written. *)
Theorem visualiser_needs_module_globals {F : Type} `{FloatOps F} {image : Type}
    (marching_cubes_lewiner :
       mean_volume → pyarg → result (list (list F) * list (list nat) * list (list F) * list F))
    (plot_trisurf :
       option Qc → list F → list F → list (list nat) → list F → result image)
    (globals : gmap string F) (fs : gmap string (file_content image))
    (mask : mean_volume) (title : option string) (az : option Qc)
    (filename : string) :
  globals !! "dz" = None ∨ globals !! "imsize" = None →
  let e := match marching_cubes_lewiner mask (PyInt 1) with
           | Err e => Exc e
           | Ok _ =>
               NameError match globals !! "dz" with
                         | Some _ => "imsize"
                         | None => "dz"
                         end
           end in
  plot_nuc_mask marching_cubes_lewiner plot_trisurf globals fs mask title az
    = Raises e ∧
  make_nuc_video marching_cubes_lewiner plot_trisurf globals fs mask filename
    = Raises e.
Proof.
  intros Hundef e. split.
  - unfold plot_nuc_mask.
    by rewrite (nuc_figure_undefined_global _ _ _ _ az Hundef).
  - unfold make_nuc_video. rewrite np_linspace_frames.
    change (seq 0 25) with (0%nat :: seq 1 24). rewrite fmap_cons.
    cbn [make_nuc_video_loop]. unfold plot_nuc_mask.
    by rewrite (nuc_figure_undefined_global _ _ _ _ _ Hundef).
Qed.

Lemma visualiser_needs_module_globals_witness :
  plot_nuc_mask corner_cubes (λ az x y faces z, Ok (az, z))
    (∅ : gmap string Qc) ∅ [] (Some "nuc.png") None = Raises (NameError "dz") ∧
  make_nuc_video corner_cubes (λ az x y faces z, Ok (az, z))
    (∅ : gmap string Qc) ∅ [] "nuc" = Raises (NameError "dz").
Proof.
  pose proof (visualiser_needs_module_globals corner_cubes
                (λ az x y faces z, Ok (az, z)) (∅ : gmap string Qc) ∅ []
                (Some "nuc.png") None "nuc" (or_introl (lookup_empty "dz")))
    as Hraises.
  cbv zeta in Hraises. rewrite lookup_empty in Hraises. exact Hraises.
Defined.

(** [make_nuc_video] assigns to [filename] in its loop before it reads it:
    the name it is called with has no effect on what it does. *)
Theorem make_nuc_video_ignores_filename {F : Type} `{FloatOps F} {image : Type}
    (marching_cubes_lewiner :
       mean_volume → pyarg → result (list (list F) * list (list nat) * list (list F) * list F))
    (plot_trisurf :
       option Qc → list F → list F → list (list nat) → list F → result image)
    (globals : gmap string F) (fs : gmap string (file_content image))
    (mask : mean_volume) (filename filename' : string) :
  make_nuc_video marching_cubes_lewiner plot_trisurf globals fs mask filename =
  make_nuc_video marching_cubes_lewiner plot_trisurf globals fs mask filename'.
Proof.
  unfold make_nuc_video. rewrite np_linspace_frames.
  change (seq 0 25) with (0%nat :: seq 1 24). rewrite fmap_cons.
  cbn [make_nuc_video_loop]. reflexivity.
Qed.

(** When [make_nuc_video] returns, it has written one file, the animation
    [az_360.png.gif] of 25 frames: frame [k] is the figure of the mask seen
    from the azimuth of [15 k] degrees.  The 25 files [az_0.png], ...,
    [az_360.png] that it draws the frames to are gone afterwards, also
    where such a file was there before. *)
Theorem make_nuc_video_writes_az_360_png_gif {F : Type} `{FloatOps F} {image : Type}
    (marching_cubes_lewiner :
       mean_volume → pyarg → result (list (list F) * list (list nat) * list (list F) * list F))
    (plot_trisurf :
       option Qc → list F → list F → list (list nat) → list F → result image)
    (globals : gmap string F) (fs fs' : gmap string (file_content image))
    (mask : mean_volume) (filename : string) :
  make_nuc_video marching_cubes_lewiner plot_trisurf globals fs mask filename
    = Returns fs' →
  ∃ frames,
    Forall2 (λ k img, nuc_figure marching_cubes_lewiner plot_trisurf globals mask
                        (Some (frame_azimuth k)) = Returns img)
            (seq 0 25) frames ∧
    fs' = <["az_360.png.gif" := Gif frames]>
            (foldl (λ fs k, delete (frame_name k) fs) fs (seq 0 25)).
Proof.
  unfold make_nuc_video. rewrite np_linspace_frames.
  destruct (make_nuc_video_loop _ _ _ _ _ _ _ _)
    as [[[fs1 filename1] images]|e] eqn:Hloop; [|done].
  rewrite bind_Returns. intros [= <-].
  apply make_nuc_video_loop_spec in Hloop as (figs & Hfigs & -> & -> & ->).
  exists figs. split.
  - by apply Forall2_fmap_l in Hfigs.
  - rewrite delete_frames. f_equal.
Qed.

Lemma make_nuc_video_writes_az_360_png_gif_witness :
  ∃ fs' frames,
    make_nuc_video corner_cubes (λ az x y faces z, Ok (az, z))
      {[ "dz" := Q2Qc (1 # 4); "imsize" := 2%Qc ]} {[ "az_15.png" := Gif [] ]}
      [] "nuc" = Returns fs' ∧
    Forall2 (λ k img, nuc_figure corner_cubes (λ az x y faces z, Ok (az, z))
                        {[ "dz" := Q2Qc (1 # 4); "imsize" := 2%Qc ]} []
                        (Some (frame_azimuth k)) = Returns img)
            (seq 0 25) frames ∧
    fs' = <["az_360.png.gif" := Gif frames]>
            (foldl (λ fs k, delete (frame_name k) fs)
                   {[ "az_15.png" := Gif [] ]} (seq 0 25)).
Proof.
  evaluate (make_nuc_video corner_cubes (λ az x y faces z, Ok (az, z))
              {[ "dz" := Q2Qc (1 # 4); "imsize" := 2%Qc ]}
              {[ "az_15.png" := Gif [] ]} [] "nuc") as Hrun.
  destruct (make_nuc_video_writes_az_360_png_gif _ _ _ _ _ _ _ Hrun)
    as (frames & Hframes & Hfs).
  eexists _, frames. split; [exact Hrun|]. split; [exact Hframes|exact Hfs].
Defined.

(** ** A single plane has nothing to race with *)

Section SinglePlane.
Context {polydata : Type}.
Variable IsInside : polydata → point → bool.
Variables (surface : polydata) (x y : list nat) (n_verts : nat).

Local Abbreviation Finish1 := (finish_call IsInside surface x y n_verts).
Local Abbreviation Plane1 := (ProcessThisPlane IsInside surface x y n_verts).
Local Abbreviation Step1 := (step_worker IsInside surface x y n_verts).
Local Abbreviation Drain1 := (drain IsInside surface x y n_verts).
Local Abbreviation Finish_all :=
  (foldl (λ s (o : option (nat * pc)),
            match o with Some (z, c) => Finish1 z c s | None => s end)).

Lemma finish_idle (n : nat) (s : shared) : Finish_all s (replicate n None) = s.
Proof. induction n as [|n IH]; [done|]. exact IH. Qed.

(** With one call under way, finishing the calls is finishing that one. *)
Lemma finish_one (n : nat) :
  ∀ (w : nat) (o : option (nat * pc)) (s : shared), (w < n)%nat →
    Finish_all s (<[w := o]> (replicate n None)) =
    match o with Some (z, c) => Finish1 z c s | None => s end.
Proof.
  induction n as [|n IH]; intros w o s Hw; [lia|].
  destruct w as [|w].
  - cbn [replicate insert list_insert foldl]. apply finish_idle.
  - cbn [replicate insert list_insert foldl]. apply IH. lia.
Qed.

(** A step of a pool with nothing left to dispatch and at most one call
    under way leaves such a pool, and the rest of the run ends in the same
    state. *)
Lemma step_one_call (n w : nat) (o : option (nat * pc)) (s : shared) (w' : nat) :
  (w < n)%nat →
  ∃ o' s', Step1 (Pool s [] (<[w := o]> (replicate n None))) w' =
             Pool s' [] (<[w := o']> (replicate n None)) ∧
           match o' with Some (z, c) => Finish1 z c s' | None => s' end =
           match o with Some (z, c) => Finish1 z c s | None => s end.
Proof.
  intros Hw. unfold step_worker. cbn [workers sh pending].
  destruct (decide (w' = w)) as [->|Hne].
  - rewrite list_lookup_insert_eq by (rewrite length_replicate; lia).
    destruct o as [[z c]|]; [|by exists None, s].
    rewrite (finish_call_act IsInside surface x y n_verts z c s).
    destruct (act IsInside surface x y n_verts z c s) as [s' c'].
    exists ((λ c, (z, c)) <$> c'), s'. rewrite list_insert_insert_eq.
    split; [done|]. by destruct c'.
  - rewrite list_lookup_insert_ne by done.
    destruct (replicate n None !! w') as [o'|] eqn:Hlook; [|by exists o, s].
    apply lookup_replicate in Hlook as [-> _]. by exists o, s.
Qed.

Lemma run_one_call (n : nat) (sched : list nat) :
  ∀ (w : nat) (o : option (nat * pc)) (s : shared), (w < n)%nat →
    Drain1 (foldl Step1 (Pool s [] (<[w := o]> (replicate n None))) sched) =
    match o with Some (z, c) => Finish1 z c s | None => s end.
Proof.
  induction sched as [|w' sched IH]; intros w o s Hw.
  - unfold drain. cbn [foldl workers sh pending]. by apply finish_one.
  - cbn [foldl].
    destruct (step_one_call n w o s w' Hw) as (o' & s' & -> & <-).
    by apply IH.
Qed.

(** No plane: no step does anything. *)
Lemma run_no_plane (n : nat) (sched : list nat) (s : shared) :
  Drain1 (foldl Step1 (Pool s [] (replicate n None)) sched) = s.
Proof.
  induction sched as [|w sched IH].
  - unfold drain. cbn [foldl workers sh pending]. apply finish_idle.
  - cbn [foldl]. unfold step_worker at 2. cbn [workers sh pending].
    destruct (replicate n None !! w) as [o|] eqn:Hlook; [|exact IH].
    apply lookup_replicate in Hlook as [-> _]. exact IH.
Qed.

(** One plane: the worker that takes it runs the one call there is. *)
Lemma run_single_plane (n z : nat) (sched : list nat) (s : shared) :
  Drain1 (foldl Step1 (Pool s [z] (replicate n None)) sched) = Plane1 z s.
Proof.
  induction sched as [|w sched IH].
  - unfold drain. cbn [foldl workers sh pending]. by rewrite finish_idle.
  - cbn [foldl]. unfold step_worker at 2. cbn [workers sh pending].
    destruct (replicate n None !! w) as [o|] eqn:Hlook; [|exact IH].
    pose proof (lookup_lt_Some _ _ _ Hlook) as Hw.
    rewrite length_replicate in Hw.
    apply lookup_replicate in Hlook as [-> _].
    rewrite (run_one_call n sched w _ s Hw).
    apply (finish_call_entry IsInside surface x y n_verts).
Qed.

Lemma Parallel_single_plane (n_jobs : nat) (sched : list nat) (s : shared)
    (nz : nat) :
  (nz ≤ 1)%nat →
  Parallel IsInside surface x y n_verts n_jobs sched s nz =
  foldl (λ s z, Plane1 z s) s (np_arange nz).
Proof.
  intros Hnz. unfold Parallel. destruct nz as [|[|nz]]; [| |lia].
  - apply run_no_plane.
  - apply run_single_plane.
Qed.
End SinglePlane.

(** A volume of at most one z-plane gives the pool at most one call to run,
    so the threads cannot interfere: under every schedule the rasterizer
    returns 255 at the enclosed grid points of the plane and 0 at the
    others. *)
Theorem get_binary_mask_from_mesh_single_plane {polydata : Type}
    (IsInside : polydata → point → bool) (sched : list nat)
    (surface : polydata) (nx ny nz : Z) :
  0 ≤ nx → 0 ≤ ny → 0 ≤ nz ≤ 1 →
  get_binary_mask_from_mesh IsInside sched surface (nx, ny, nz) =
  Ok (occupancy IsInside surface (Z.to_nat nx) (Z.to_nat ny) (Z.to_nat nz)).
Proof.
  intros Hx Hy Hz. unfold get_binary_mask_from_mesh, rasterize_with_pool.
  rewrite bool_decide_eq_false_2 by lia. cbn zeta. f_equal.
  rewrite Parallel_single_plane by lia.
  change (flatten (map (λ bi : nat, map (λ _ : nat, bi) (np_arange (Z.to_nat ny)))
                       (np_arange (Z.to_nat nx))))
    with (grid_x (Z.to_nat nx) (Z.to_nat ny)).
  change (flatten (map (λ _ : nat, np_arange (Z.to_nat ny)) (np_arange (Z.to_nat nx))))
    with (grid_y (Z.to_nat nx) (Z.to_nat ny)).
  rewrite grid_y_length. apply planes_from_zeros.
  - unfold np_arange. rewrite (foldl_insert_all _ _ _ (length_replicate _ _)).
    by rewrite length_fmap, length_seq.
  - apply length_replicate.
Qed.

Lemma get_binary_mask_from_mesh_single_plane_witness :
  get_binary_mask_from_mesh cuboid_inside [0; 1; 1; 0; 1; 1; 1; 1]%nat
    unit_cuboid (2, 2, 1) =
  Ok (occupancy cuboid_inside unit_cuboid (Z.to_nat 2) (Z.to_nat 2) (Z.to_nat 1)).
Proof.
  apply get_binary_mask_from_mesh_single_plane; lia.
Defined.
